(** * Early-boot runtime of the ESP32-C3 port (runtime_esp32c3.go)

    A shallow embedding of [src/runtime/runtime_esp32c3.go]: the boot entry
    [main] (watchdog disabling, clock configuration, zeroing of .bss, timer
    configuration, hand-off to [run], fallback [abort]), the tick source
    [ticks], the tick/nanosecond conversions and the busy-wait [sleepTicks].

    Go integers are modelled as [Z] with their wrap-around written out,
    memory-mapped registers as a register file together with a trace of the
    accesses the program performs, and the two unbounded loops of the file
    ([for ptr != &_ebss] and [for ticks() < sleepUntil], as well as the
    endless loop of [abort]) by fuel. *)

From Stdlib Require Import ZArith List Lia Bool.
Import ListNotations.
Open Scope Z_scope.

(* ================================================================== *)
(** ** Machine integers *)

(** Conversions to the fixed-width Go types. *)
Definition uint32 (z : Z) : Z := z mod 2 ^ 32.
Definition uint64 (z : Z) : Z := z mod 2 ^ 64.
Definition int64 (z : Z) : Z := (z + 2 ^ 63) mod 2 ^ 64 - 2 ^ 63.

Definition min_int64 : Z := - 2 ^ 63.
Definition max_int64 : Z := 2 ^ 63 - 1.

(** [type timeUnit int64] *)
Definition timeUnit : Type := Z.

(** Addition and multiplication on [int64]/[timeUnit] wrap around. *)
Definition add64 (a b : Z) : Z := int64 (a + b).
Definition mul64 (a b : Z) : Z := int64 (a * b).

(** Go's [/] on integers truncates towards zero: [Z.quot].  The only
    overflowing quotient, [min_int64 / -1], cannot arise for a divisor of
    25, the conversion is kept for uniformity. *)
Definition div64 (a b : Z) : Z := int64 (Z.quot a b).

(* ================================================================== *)
(** ** Tick conversions (lines 93-103) *)

(** [func nanosecondsToTicks(ns int64) timeUnit { return timeUnit(ns / 25) }] *)
Definition nanosecondsToTicks (ns : Z) : timeUnit := div64 ns 25.

(** [func ticksToNanoseconds(ticks timeUnit) int64 { return int64(ticks) * 25 }] *)
Definition ticksToNanoseconds (ticks : timeUnit) : Z := mul64 ticks 25.

(* ================================================================== *)
(** ** Peripheral registers *)

(** The registers of [device/esp] the runtime refers to, and the timer
    group's watchdog write-protect register, which the device has but the
    runtime never touches. *)
Inductive reg : Type :=
| TIMG0_WDTCONFIG0_REG
| TIMG0_WDTWPROTECT_REG
| RTC_CNTL_RTC_WDTWPROTECT
| RTC_CNTL_RTC_WDTCONFIG0
| RTC_CNTL_RTC_SWD_WPROTECT
| RTC_CNTL_RTC_SWD_CONF
| SYSTEM_SYSCLK_CONF
| SYSTEM_CPU_PER_CONF_REG
| TIMG0_T0CONFIG_REG
| TIMG0_T0LOADLO_REG
| TIMG0_T0LOADHI_REG
| TIMG0_T0LOAD_REG
| TIMG0_T0UPDATE_REG
| TIMG0_T0LO_REG
| TIMG0_T0HI_REG.

Definition reg_eq_dec (a b : reg) : {a = b} + {a <> b}.
Proof. decide equality. Defined.

Definition reg_eqb (a b : reg) : bool :=
  if reg_eq_dec a b then true else false.

(** Field constants of [device/esp] used by [main].  The package is
    generated from the chip description and is not part of the runtime
    file, so the constants are parameters of the embedding. *)
Record esp_consts : Type := {
  RTC_CNTL_RTC_SWD_CONF_SWD_DISABLE : Z;
  SYSTEM_SYSCLK_CONF_SOC_CLK_SEL_Pos : Z;
  SYSTEM_CPU_PER_CONF_REG_CPU_WAIT_MODE_FORCE_ON : Z;
  SYSTEM_CPU_PER_CONF_REG_PLL_FREQ_SEL : Z;
  SYSTEM_CPU_PER_CONF_REG_CPUPERIOD_SEL_Pos : Z;
  TIMG_T0CONFIG_REG_T0_EN : Z;
  TIMG_T0CONFIG_REG_T0_INCREASE : Z;
  TIMG_T0CONFIG_REG_T0_DIVIDER_Pos : Z
}.

(* ================================================================== *)
(** ** Hardware state and access traces *)

(** What the program does to the outside world, in program order. *)
Inductive event : Type :=
| RegSet (r : reg) (v : Z)      (* r.Set(v) *)
| RegGet (r : reg) (v : Z)      (* r.Get() returned v *)
| Store32 (addr : Z) (v : Z)    (* 32-bit store of v through pointer addr *)
| CallRun                       (* run() is entered *)
| Wfi.                          (* riscv.Asm("wfi") *)

(** The simulated hardware.  The timer behind [esp.TIMG0] is the counter
    model the statements about [ticks] and [sleepTicks] speak of: a
    free-running counter whose low and high halves become readable as one
    snapshot when the update register is written.  [osc n] is the value of
    the counter at the moment of the [n]-th latch request, [polls] counts
    the latch requests so far. *)
Record machine : Type := {
  regs : reg -> Z;       (* register contents *)
  mem : Z -> Z;          (* byte-addressed memory *)
  osc : nat -> Z;
  polls : nat
}.

Record world : Type := {
  hw : machine;
  trace : list event
}.

Definition upd (f : reg -> Z) (r : reg) (v : Z) : reg -> Z :=
  fun x => if reg_eqb x r then v else f x.

(** Latching: the low and high halves of one counter value are copied to
    the readable pair. *)
Definition latch (m : machine) : machine :=
  let c := osc m (polls m) in
  {| regs := upd (upd (regs m) TIMG0_T0LO_REG (uint32 c))
                 TIMG0_T0HI_REG (uint32 (c / 2 ^ 32));
     mem := mem m;
     osc := osc m;
     polls := S (polls m) |}.

Definition hw_write (r : reg) (v : Z) (m : machine) : machine :=
  match r with
  | TIMG0_T0UPDATE_REG => latch m
  | TIMG0_T0LO_REG | TIMG0_T0HI_REG => m      (* read-only pair *)
  | _ => {| regs := upd (regs m) r v; mem := mem m;
            osc := osc m; polls := polls m |}
  end.

(** [r.Set(v)] and [r.Get()] on a [volatile.Register32]. *)
Definition Set_ (r : reg) (v : Z) (w : world) : world :=
  {| hw := hw_write r v (hw w); trace := trace w ++ [RegSet r v] |}.

Definition Get (r : reg) (w : world) : Z * world :=
  let v := uint32 (regs (hw w) r) in
  (v, {| hw := hw w; trace := trace w ++ [RegGet r v] |}).

(** Little-endian 32-bit stores and loads on the byte memory; addresses are
    [uintptr], 32 bits wide on this core. *)
Definition store_byte (a b : Z) (f : Z -> Z) : Z -> Z :=
  fun x => if x =? a then b else f x.

Definition store32_mem (a v : Z) (f : Z -> Z) : Z -> Z :=
  store_byte (uint32 (a + 3)) ((v / 2 ^ 24) mod 2 ^ 8)
    (store_byte (uint32 (a + 2)) ((v / 2 ^ 16) mod 2 ^ 8)
       (store_byte (uint32 (a + 1)) ((v / 2 ^ 8) mod 2 ^ 8)
          (store_byte (uint32 a) (v mod 2 ^ 8) f))).

Definition load32 (f : Z -> Z) (a : Z) : Z :=
  f (uint32 a) + 2 ^ 8 * f (uint32 (a + 1))
  + 2 ^ 16 * f (uint32 (a + 2)) + 2 ^ 24 * f (uint32 (a + 3)).

(** A store through a [uint32] pointer, as in line 62. *)
Definition store32 (a v : Z) (w : world) : world :=
  {| hw := {| regs := regs (hw w); mem := store32_mem a v (mem (hw w));
              osc := osc (hw w); polls := polls (hw w) |};
     trace := trace w ++ [Store32 a v] |}.

(** Result of running code that contains a loop with [fuel] iterations at
    its disposal: it returned in world [w], or it was still running in
    world [w] when the fuel ran out (or when control left for good). *)
Inductive outcome : Type :=
| Ret (w : world)
| Spin (w : world).

Definition world_of (o : outcome) : world :=
  match o with Ret w => w | Spin w => w end.

Definition returned (o : outcome) : bool :=
  match o with Ret _ => true | Spin _ => false end.

(* ================================================================== *)
(** ** Timebase and sleep (lines 85-110) *)

(** [func ticks() timeUnit]:
    [esp.TIMG0.T0UPDATE_REG.Set(0)], then
    [timeUnit(uint64(T0LO_REG.Get()) | uint64(T0HI_REG.Get())<<32)];
    operands are evaluated left to right. *)
Definition ticks (w : world) : timeUnit * world :=
  let w1 := Set_ TIMG0_T0UPDATE_REG 0 w in
  let (lo, w2) := Get TIMG0_T0LO_REG w1 in
  let (hi, w3) := Get TIMG0_T0HI_REG w2 in
  (int64 (Z.lor (uint64 lo) (uint64 (Z.shiftl (uint64 hi) 32))), w3).

(** [for ticks() < sleepUntil { }] *)
Fixpoint sleep_loop (fuel : nat) (sleepUntil : timeUnit) (w : world) : outcome :=
  match fuel with
  | O => Spin w
  | S fuel' =>
      let (t, w') := ticks w in
      if t <? sleepUntil then sleep_loop fuel' sleepUntil w' else Ret w'
  end.

(** [func sleepTicks(d timeUnit) { sleepUntil := ticks() + d; for ... }] *)
Definition sleepTicks (fuel : nat) (d : timeUnit) (w : world) : outcome :=
  let (t0, w1) := ticks w in
  sleep_loop fuel (add64 t0 d) w1.

(** The world after [k] calls of [ticks], and the value the next call
    returns there. *)
Fixpoint poll_world (k : nat) (w : world) : world :=
  match k with
  | O => w
  | S k' => poll_world k' (snd (ticks w))
  end.

Definition sample (k : nat) (w : world) : timeUnit :=
  fst (ticks (poll_world k w)).

(* ================================================================== *)
(** ** Boot entry and halt (lines 23-83 and 112-117) *)

(** [riscv.Asm("wfi")] *)
Definition wfi (w : world) : world :=
  {| hw := hw w; trace := trace w ++ [Wfi] |}.

(** [func abort() { for { riscv.Asm("wfi") } }]: the loop has no exit, so
    no amount of fuel makes it return. *)
Fixpoint abort (fuel : nat) (w : world) : outcome :=
  match fuel with
  | O => Spin w
  | S fuel' => abort fuel' (wfi w)
  end.

Section Boot.

Variable K : esp_consts.

(** Addresses of the linker symbols [_sbss] and [_ebss]. *)
Variables _sbss _ebss : Z.

(** The external [run()]: what it leaves of the machine if it ever
    returns, [None] if it does not. *)
Variable run : machine -> option machine.

(** Lines 36-45. *)
Definition watchdog_disable (w : world) : world :=
  (* Disable Timer 0 watchdog. *)
  let w := Set_ TIMG0_WDTCONFIG0_REG 0 w in
  (* Disable RTC watchdog. *)
  let w := Set_ RTC_CNTL_RTC_WDTWPROTECT 0x50D83AA1 w in
  let w := Set_ RTC_CNTL_RTC_WDTCONFIG0 0 w in
  (* Disable super watchdog. *)
  let w := Set_ RTC_CNTL_RTC_SWD_WPROTECT 0x8F1D312A w in
  Set_ RTC_CNTL_RTC_SWD_CONF (RTC_CNTL_RTC_SWD_CONF_SWD_DISABLE K) w.

(** Lines 47-56. *)
Definition clock_config (w : world) : world :=
  let w := Set_ SYSTEM_SYSCLK_CONF
             (Z.shiftl 1 (SYSTEM_SYSCLK_CONF_SOC_CLK_SEL_Pos K)) w in
  Set_ SYSTEM_CPU_PER_CONF_REG
    (Z.lor (Z.lor (SYSTEM_CPU_PER_CONF_REG_CPU_WAIT_MODE_FORCE_ON K)
                  (SYSTEM_CPU_PER_CONF_REG_PLL_FREQ_SEL K))
           (Z.shiftl 1 (SYSTEM_CPU_PER_CONF_REG_CPUPERIOD_SEL_Pos K))) w.

(** Lines 61-64: [for ptr != &_ebss { store 0 at ptr; ptr += 4 }] with
    [ptr] a [uintptr]. *)
Fixpoint zero_loop (fuel : nat) (ptr : Z) (w : world) : outcome :=
  match fuel with
  | O => Spin w
  | S fuel' =>
      if negb (ptr =? _ebss)
      then zero_loop fuel' (uint32 (ptr + 4)) (store32 ptr 0 w)
      else Ret w
  end.

(** Lines 60-64. *)
Definition zero_init (fuel : nat) (w : world) : outcome :=
  zero_loop fuel _sbss w.

(** Lines 71-76. *)
Definition timebase_config (w : world) : world :=
  let w := Set_ TIMG0_T0CONFIG_REG
             (Z.lor (Z.lor (TIMG_T0CONFIG_REG_T0_EN K)
                           (TIMG_T0CONFIG_REG_T0_INCREASE K))
                    (Z.shiftl 2 (TIMG_T0CONFIG_REG_T0_DIVIDER_Pos K))) w in
  let w := Set_ TIMG0_T0LOADLO_REG 0 w in
  let w := Set_ TIMG0_T0LOADHI_REG 0 w in
  Set_ TIMG0_T0LOAD_REG 0 w.

(** Line 79: the call is recorded, then the external code owns the
    machine. *)
Definition call_run (w : world) : outcome :=
  let w := {| hw := hw w; trace := trace w ++ [CallRun] |} in
  match run (hw w) with
  | Some m' => Ret {| hw := m'; trace := trace w |}
  | None => Spin w
  end.

(** [func main()] *)
Definition main (fuel : nat) (w : world) : outcome :=
  let w := watchdog_disable w in
  let w := clock_config w in
  match zero_init fuel w with
  | Spin w => Spin w
  | Ret w =>
      let w := timebase_config w in
      match call_run w with
      | Spin w => Spin w
      | Ret w => abort fuel w
      end
  end.

(** The events of the four units, as lists. *)
Definition watchdog_events : list event :=
  [ RegSet TIMG0_WDTCONFIG0_REG 0;
    RegSet RTC_CNTL_RTC_WDTWPROTECT 0x50D83AA1;
    RegSet RTC_CNTL_RTC_WDTCONFIG0 0;
    RegSet RTC_CNTL_RTC_SWD_WPROTECT 0x8F1D312A;
    RegSet RTC_CNTL_RTC_SWD_CONF (RTC_CNTL_RTC_SWD_CONF_SWD_DISABLE K) ].

Definition clock_events : list event :=
  [ RegSet SYSTEM_SYSCLK_CONF
      (Z.shiftl 1 (SYSTEM_SYSCLK_CONF_SOC_CLK_SEL_Pos K));
    RegSet SYSTEM_CPU_PER_CONF_REG
      (Z.lor (Z.lor (SYSTEM_CPU_PER_CONF_REG_CPU_WAIT_MODE_FORCE_ON K)
                    (SYSTEM_CPU_PER_CONF_REG_PLL_FREQ_SEL K))
             (Z.shiftl 1 (SYSTEM_CPU_PER_CONF_REG_CPUPERIOD_SEL_Pos K))) ].

Definition timebase_events : list event :=
  [ RegSet TIMG0_T0CONFIG_REG
      (Z.lor (Z.lor (TIMG_T0CONFIG_REG_T0_EN K)
                    (TIMG_T0CONFIG_REG_T0_INCREASE K))
             (Z.shiftl 2 (TIMG_T0CONFIG_REG_T0_DIVIDER_Pos K)));
    RegSet TIMG0_T0LOADLO_REG 0;
    RegSet TIMG0_T0LOADHI_REG 0;
    RegSet TIMG0_T0LOAD_REG 0 ].

End Boot.

(** The address the zeroing loop holds after [k] iterations, and the stores
    of its first [n] iterations. *)
Fixpoint ptr_at (sbss : Z) (k : nat) : Z :=
  match k with
  | O => sbss
  | S k' => uint32 (ptr_at sbss k' + 4)
  end.

Definition zero_events (sbss : Z) (n : nat) : list event :=
  map (fun k => Store32 (ptr_at sbss k) 0) (seq 0 n).

(** The world after the first [n] iterations of the zeroing loop. *)
Fixpoint zero_words (n : nat) (ptr : Z) (w : world) : world :=
  match n with
  | O => w
  | S n' => zero_words n' (uint32 (ptr + 4)) (store32 ptr 0 w)
  end.

(** The counter value the next latch request captures. *)
Definition pending (w : world) : Z := osc (hw w) (polls (hw w)).

(** Number of words between the bounds. *)
Definition bss_words (sbss ebss : Z) : nat := Z.to_nat ((ebss - sbss) / 4).

(** The world in which [run] is called, after [n] zeroing iterations. *)
Definition handoff (K : esp_consts) (sbss : Z) (n : nat) (w : world) : world :=
  timebase_config K
    (zero_words n sbss (clock_config K (watchdog_disable K w))).

(** Number of loop tests of [sleepTicks d] under a counter advancing by
    [step > 0] per poll: [max 1 (ceil (d / step))]. *)
Definition sleep_polls (step d : Z) : nat :=
  Z.to_nat (Z.max 1 ((d + step - 1) / step)).

(** Number of iterations of the zeroing loop when [_sbss] lies above
    [_ebss]: up to the top of the address space, then from 0 to [_ebss]. *)
Definition wrap_words (sbss ebss : Z) : nat :=
  (Z.to_nat ((2 ^ 32 - sbss) / 4) + Z.to_nat (ebss / 4))%nat.

(** Classification of events. *)
Definition is_watchdog_reg (r : reg) : bool :=
  match r with
  | TIMG0_WDTCONFIG0_REG | TIMG0_WDTWPROTECT_REG
  | RTC_CNTL_RTC_WDTWPROTECT | RTC_CNTL_RTC_WDTCONFIG0
  | RTC_CNTL_RTC_SWD_WPROTECT | RTC_CNTL_RTC_SWD_CONF => true
  | _ => false
  end.

Definition is_clock_reg (r : reg) : bool :=
  match r with
  | SYSTEM_SYSCLK_CONF | SYSTEM_CPU_PER_CONF_REG => true
  | _ => false
  end.

Definition is_watchdog_write (e : event) : bool :=
  match e with RegSet r _ => is_watchdog_reg r | _ => false end.

Definition is_clock_write (e : event) : bool :=
  match e with RegSet r _ => is_clock_reg r | _ => false end.

Definition is_timer_config (e : event) : bool :=
  match e with RegSet TIMG0_T0CONFIG_REG _ => true | _ => false end.

Definition writes_to (r : reg) (e : event) : bool :=
  match e with RegSet r' _ => reg_eqb r' r | _ => false end.

(** The three accesses one call of [ticks] performs. *)
Definition is_timer_poll (e : event) : bool :=
  match e with
  | RegSet TIMG0_T0UPDATE_REG _ => true
  | RegGet TIMG0_T0LO_REG _ | RegGet TIMG0_T0HI_REG _ => true
  | _ => false
  end.

Definition is_call_run (e : event) : bool :=
  match e with CallRun => true | _ => false end.

Definition is_reg_write (e : event) : bool :=
  match e with RegSet _ _ => true | _ => false end.

Definition is_store (e : event) : bool :=
  match e with Store32 _ _ => true | _ => false end.

(** The three watchdogs with their write-protect and configuration
    registers. *)
Inductive watchdog : Type := MWDT | RWDT | SWD.

Definition wprotect_reg (d : watchdog) : reg :=
  match d with
  | MWDT => TIMG0_WDTWPROTECT_REG
  | RWDT => RTC_CNTL_RTC_WDTWPROTECT
  | SWD => RTC_CNTL_RTC_SWD_WPROTECT
  end.

Definition config_reg (d : watchdog) : reg :=
  match d with
  | MWDT => TIMG0_WDTCONFIG0_REG
  | RWDT => RTC_CNTL_RTC_WDTCONFIG0
  | SWD => RTC_CNTL_RTC_SWD_CONF
  end.

(** [unlocked_disable d tr]: in [tr] a write to the write-protect register
    of [d] is directly followed by a write to its configuration register. *)
Definition unlocked_disable (d : watchdog) (tr : list event) : Prop :=
  exists pre key v post,
    tr = pre ++ RegSet (wprotect_reg d) key :: RegSet (config_reg d) v :: post.

(* ================================================================== *)
(** ** Concrete inputs *)

(** One valuation of the [device/esp] constants, to run the model. *)
Definition sample_consts : esp_consts :=
  {| RTC_CNTL_RTC_SWD_CONF_SWD_DISABLE := 0x40000000;
     SYSTEM_SYSCLK_CONF_SOC_CLK_SEL_Pos := 10;
     SYSTEM_CPU_PER_CONF_REG_CPU_WAIT_MODE_FORCE_ON := 0x8;
     SYSTEM_CPU_PER_CONF_REG_PLL_FREQ_SEL := 0x4;
     SYSTEM_CPU_PER_CONF_REG_CPUPERIOD_SEL_Pos := 0;
     TIMG_T0CONFIG_REG_T0_EN := 0x80000000;
     TIMG_T0CONFIG_REG_T0_INCREASE := 0x40000000;
     TIMG_T0CONFIG_REG_T0_DIVIDER_Pos := 13 |}.

(** A machine after reset: registers clear, memory full of garbage, and a
    counter that shows [c0] at the first latch and [step] more at each
    later one. *)
Definition sim_machine (c0 step : Z) : machine :=
  {| regs := fun _ => 0;
     mem := fun _ => 0xA5;
     osc := fun n => c0 + step * Z.of_nat n;
     polls := 0 |}.

Definition boot (m : machine) : world := {| hw := m; trace := [] |}.

(** A counter that only increases and fits 64 bits, passing [2^63]. *)
Definition crossing_osc (n : nat) : Z := 2 ^ 63 - 1 + Z.min (Z.of_nat n) 1.

Definition crossing_machine : machine :=
  {| regs := fun _ => 0; mem := fun _ => 0; osc := crossing_osc; polls := 0 |}.

(** A counter that advances by [step] per latch until it stops at [cap]. *)
Definition capped_machine (c0 step cap : Z) : machine :=
  {| regs := fun _ => 0;
     mem := fun _ => 0xA5;
     osc := fun n => Z.min (c0 + step * Z.of_nat n) cap;
     polls := 0 |}.

(** An external runtime that returns at once, and one that never does. *)
Definition run_returns (m : machine) : option machine := Some m.
Definition run_forever (m : machine) : option machine := None.

(* ================================================================== *)
(** ** Facts about machine integers *)

Lemma int64_id (z : Z) : min_int64 <= z <= max_int64 -> int64 z = z.
Proof.
  unfold int64, min_int64, max_int64. intros H.
  rewrite Z.mod_small by lia. lia.
Qed.

Lemma int64_range (z : Z) : min_int64 <= int64 z <= max_int64.
Proof.
  unfold int64, min_int64, max_int64.
  pose proof (Z.mod_pos_bound (z + 2 ^ 63) (2 ^ 64) ltac:(lia)). lia.
Qed.

Lemma uint64_int64 (z : Z) : uint64 (int64 z) = uint64 z.
Proof.
  unfold uint64, int64.
  rewrite Zminus_mod_idemp_l. f_equal. lia.
Qed.

Lemma uint32_idem (z : Z) : uint32 (uint32 z) = uint32 z.
Proof. unfold uint32. apply Z.mod_mod. lia. Qed.

Lemma uint32_small (z : Z) : 0 <= z < 2 ^ 32 -> uint32 z = z.
Proof. unfold uint32. apply Z.mod_small. Qed.

(** Recombining the two halves of a counter value gives back its low 64
    bits. *)
Lemma halves_combine (c : Z) :
  Z.lor (uint64 (uint32 c)) (uint64 (Z.shiftl (uint64 (uint32 (c / 2 ^ 32))) 32))
  = uint64 c.
Proof.
  unfold uint64, uint32.
  apply Z.bits_inj'. intros n Hn.
  rewrite Z.lor_spec.
  change (2 ^ 64) with (2 ^ 64) in *.
  destruct (Z.ltb_spec n 64) as [H64 | H64].
  - rewrite (Z.mod_pow2_bits_low c 64 n) by lia.
    rewrite (Z.mod_pow2_bits_low _ 64 n) by lia.
    rewrite (Z.mod_pow2_bits_low (Z.shiftl _ _) 64 n) by lia.
    rewrite Z.shiftl_spec by lia.
    destruct (Z.ltb_spec n 32) as [H32 | H32].
    + rewrite (Z.mod_pow2_bits_low c 32 n) by lia.
      rewrite (Z.testbit_neg_r _ (n - 32)) by lia.
      apply orb_false_r.
    + rewrite (Z.mod_pow2_bits_high c 32 n) by lia.
      rewrite (Z.mod_pow2_bits_low _ 64 (n - 32)) by lia.
      rewrite (Z.mod_pow2_bits_low _ 32 (n - 32)) by lia.
      rewrite Z.div_pow2_bits by lia.
      simpl. f_equal. lia.
  - rewrite !(Z.mod_pow2_bits_high _ 64 n) by lia. reflexivity.
Qed.

(* ================================================================== *)
(** ** Facts about [ticks] *)

Lemma ticks_eq (w : world) :
  ticks w =
  (int64 (uint64 (pending w)),
   {| hw := latch (hw w);
      trace := trace w ++
        [ RegSet TIMG0_T0UPDATE_REG 0;
          RegGet TIMG0_T0LO_REG (uint32 (pending w));
          RegGet TIMG0_T0HI_REG (uint32 (pending w / 2 ^ 32)) ] |}).
Proof.
  unfold ticks, Get, Set_, pending. cbn [hw trace hw_write latch regs].
  unfold upd. cbn [reg_eqb reg_eq_dec].
  change (reg_eqb TIMG0_T0LO_REG TIMG0_T0HI_REG) with false.
  change (reg_eqb TIMG0_T0LO_REG TIMG0_T0LO_REG) with true.
  change (reg_eqb TIMG0_T0HI_REG TIMG0_T0HI_REG) with true.
  cbv iota.
  rewrite !uint32_idem, halves_combine.
  rewrite <- !app_assoc. reflexivity.
Qed.

Lemma ticks_value (w : world) : fst (ticks w) = int64 (uint64 (pending w)).
Proof. rewrite ticks_eq. reflexivity. Qed.

Lemma ticks_hw (w : world) : hw (snd (ticks w)) = latch (hw w).
Proof. rewrite ticks_eq. reflexivity. Qed.

Lemma poll_world_osc (k : nat) (w : world) :
  osc (hw (poll_world k w)) = osc (hw w)
  /\ polls (hw (poll_world k w)) = (polls (hw w) + k)%nat.
Proof.
  revert w. induction k as [| k IH]; intros w; cbn [poll_world].
  - split; [reflexivity | lia].
  - destruct (IH (snd (ticks w))) as [Ho Hp].
    rewrite Ho, Hp, ticks_hw. cbn [latch osc polls]. split; [reflexivity | lia].
Qed.

Lemma sample_value (k : nat) (w : world) :
  sample k w = int64 (uint64 (osc (hw w) (polls (hw w) + k)%nat)).
Proof.
  unfold sample. rewrite ticks_value. unfold pending.
  destruct (poll_world_osc k w) as [Ho Hp]. rewrite Ho, Hp. reflexivity.
Qed.

Lemma int64_uint64_small (c : Z) : 0 <= c <= max_int64 -> int64 (uint64 c) = c.
Proof.
  unfold max_int64. intros H. unfold uint64.
  rewrite Z.mod_small by lia. apply int64_id. unfold min_int64, max_int64. lia.
Qed.

(* ================================================================== *)
(** ** Tick conversion round trip *)

(** C4: for every non-negative [int64] duration [d],
    [ticksToNanoseconds (nanosecondsToTicks d)] is [d] rounded down to a
    multiple of 25: it equals [(d / 25) * 25], is a multiple of 25, is at
    most [d] and misses [d] by less than one tick period. *)
Theorem ticks_roundtrip (d : Z) :
  0 <= d <= max_int64 ->
  ticksToNanoseconds (nanosecondsToTicks d) = (d / 25) * 25
  /\ ticksToNanoseconds (nanosecondsToTicks d) = Z.quot d 25 * 25
  /\ (ticksToNanoseconds (nanosecondsToTicks d)) mod 25 = 0
  /\ ticksToNanoseconds (nanosecondsToTicks d) <= d
     < ticksToNanoseconds (nanosecondsToTicks d) + 25.
Proof.
  intros Hd. unfold max_int64 in Hd.
  unfold ticksToNanoseconds, nanosecondsToTicks, div64, mul64.
  rewrite Z.quot_div_nonneg by lia.
  assert (Hq : 0 <= d / 25 <= d) by (split; [apply Z.div_pos | apply Z.div_le_upper_bound]; lia).
  assert (Hm := Z.div_mod d 25 ltac:(lia)).
  assert (Hr := Z.mod_pos_bound d 25 ltac:(lia)).
  rewrite (int64_id (d / 25)) by (unfold min_int64, max_int64; lia).
  rewrite int64_id by (unfold min_int64, max_int64; lia).
  repeat split; try lia.
  apply Z.mod_mul. lia.
Qed.

Lemma ticks_roundtrip_witness :
  0 <= 1234 <= max_int64
  /\ ticksToNanoseconds (nanosecondsToTicks 1234) = 1225.
Proof.
  split; [unfold max_int64; lia |].
  rewrite (proj1 (ticks_roundtrip 1234 ltac:(unfold max_int64; lia))).
  reflexivity.
Defined.

(* ================================================================== *)
(** ** The latch protocol of [ticks] *)

Lemma osc_monotone_le (f : nat -> Z) :
  (forall n, f n <= f (S n)) ->
  forall i j, (i <= j)%nat -> f i <= f j.
Proof.
  intros Hf i j Hij. induction Hij as [| j Hij IH].
  - lia.
  - specialize (Hf j). lia.
Qed.

(** C5 (as amended): every call of [ticks] writes the update register,
    then reads the low and then the high register, and returns
    [low | high << 32] converted to the signed 64-bit [timeUnit]; the
    result carries the 64 bits of the one counter value the write latched
    (no torn pair).  For a counter that only increases, a later call never
    returns less than an earlier one as long as the counter is below
    [2^63], where the result equals the counter value. *)
Theorem ticks_latch_protocol (w : world) (i j : nat) :
  let c := pending w in
  let lo := uint32 c in
  let hi := uint32 (c / 2 ^ 32) in
  trace (snd (ticks w)) =
    trace w ++ [ RegSet TIMG0_T0UPDATE_REG 0;
                 RegGet TIMG0_T0LO_REG lo;
                 RegGet TIMG0_T0HI_REG hi ]
  /\ fst (ticks w) = int64 (Z.lor lo (Z.shiftl hi 32))
  /\ uint64 (fst (ticks w)) = Z.lor lo (Z.shiftl hi 32)
  /\ uint64 (fst (ticks w)) = uint64 c
  /\ ((forall n, osc (hw w) n <= osc (hw w) (S n)) ->
      (i <= j)%nat ->
      0 <= osc (hw w) (polls (hw w) + i)%nat ->
      osc (hw w) (polls (hw w) + j)%nat <= max_int64 ->
      sample i w = osc (hw w) (polls (hw w) + i)%nat
      /\ sample j w = osc (hw w) (polls (hw w) + j)%nat
      /\ sample i w <= sample j w).
Proof.
  intros c lo hi.
  assert (Hcomb : Z.lor lo (Z.shiftl hi 32) = uint64 c).
  { rewrite <- (halves_combine c). subst lo hi.
    assert (Hlo : uint64 (uint32 c) = uint32 c).
    { unfold uint64, uint32.
      pose proof (Z.mod_pos_bound c (2 ^ 32) ltac:(lia)).
      apply Z.mod_small. lia. }
    assert (Hhi : uint64 (uint32 (c / 2 ^ 32)) = uint32 (c / 2 ^ 32)).
    { unfold uint64, uint32.
      pose proof (Z.mod_pos_bound (c / 2 ^ 32) (2 ^ 32) ltac:(lia)).
      apply Z.mod_small. lia. }
    rewrite Hlo, Hhi.
    assert (Hsh : uint64 (Z.shiftl (uint32 (c / 2 ^ 32)) 32)
                  = Z.shiftl (uint32 (c / 2 ^ 32)) 32).
    { unfold uint64, uint32. rewrite Z.shiftl_mul_pow2 by lia.
      pose proof (Z.mod_pos_bound (c / 2 ^ 32) (2 ^ 32) ltac:(lia)).
      apply Z.mod_small. lia. }
    rewrite Hsh. reflexivity. }
  rewrite Hcomb, ticks_eq. cbn [fst snd trace].
  split; [reflexivity |]. split; [reflexivity |].
  split; [rewrite uint64_int64; unfold uint64; apply Z.mod_mod; lia |].
  split; [rewrite uint64_int64; unfold uint64; apply Z.mod_mod; lia |].
  intros Hmono Hij Hlo Hhi.
  pose proof (osc_monotone_le _ Hmono (polls (hw w) + i)%nat
                (polls (hw w) + j)%nat ltac:(lia)) as Hle.
  rewrite !sample_value.
  rewrite !int64_uint64_small by lia.
  repeat split; lia.
Qed.

Lemma ticks_latch_protocol_witness :
  let w := boot (sim_machine 100 7) in
  (forall n, osc (hw w) n <= osc (hw w) (S n))
  /\ sample 2 w = 114 /\ sample 5 w = 135 /\ sample 2 w <= sample 5 w.
Proof.
  intros w.
  assert (Hm : forall n, osc (hw w) n <= osc (hw w) (S n)).
  { intros n. subst w. cbn [boot hw sim_machine osc]. lia. }
  split; [exact Hm |].
  destruct (ticks_latch_protocol w 2 5) as (_ & _ & _ & _ & H).
  destruct (H Hm) as (H2 & H5 & Hle).
  - lia.
  - subst w. cbn. lia.
  - subst w. cbn. unfold max_int64. lia.
  - rewrite H2, H5 in *. subst w. cbn in *. repeat split; lia.
Defined.

(** C5 (as stated) fails: the counter of [crossing_machine] only increases
    and stays within 64 bits, yet the second call of [ticks] returns less
    than the first, because the latched value [2^63] is negative as a
    [timeUnit]. *)
Lemma ticks_decrease_at_sign_bit :
  let w := boot crossing_machine in
  (forall n, 0 <= osc (hw w) n < 2 ^ 64)
  /\ (forall n, osc (hw w) n <= osc (hw w) (S n))
  /\ fst (ticks w) = 2 ^ 63 - 1
  /\ fst (ticks (snd (ticks w))) = - 2 ^ 63
  /\ fst (ticks (snd (ticks w))) < fst (ticks w).
Proof.
  cbn zeta. cbn [boot hw crossing_machine osc]. unfold crossing_osc.
  split; [intros n; lia |].
  split; [intros n; lia |].
  split; [vm_compute; reflexivity |].
  split; [vm_compute; reflexivity |].
  vm_compute. reflexivity.
Qed.

(* ================================================================== *)
(** ** The busy-wait loop *)

(** When the loop returns, it does so at the first sample that is not
    below the deadline. *)
Lemma sleep_loop_ret (fuel : nat) (su : timeUnit) :
  forall w w', sleep_loop fuel su w = Ret w' ->
  exists n, (n < fuel)%nat
    /\ w' = poll_world (S n) w
    /\ su <= sample n w
    /\ forall k, (k < n)%nat -> sample k w < su.
Proof.
  induction fuel as [| fuel IH]; intros w w' H; cbn [sleep_loop] in H.
  - discriminate.
  - destruct (ticks w) as [t w1] eqn:Et.
    assert (Ht : t = sample 0 w) by (unfold sample; cbn [poll_world]; rewrite Et; reflexivity).
    assert (Hw : w1 = snd (ticks w)) by (rewrite Et; reflexivity).
    destruct (Z.ltb_spec t su) as [Hlt | Hge].
    + destruct (IH _ _ H) as (n & Hn & Hw' & Hsu & Hbelow).
      exists (S n). split; [lia |]. subst w1.
      split; [exact Hw' |]. split; [exact Hsu |].
      intros [| k] Hk; [lia |]. apply (Hbelow k). lia.
    + exists O. split; [lia |]. inversion H; subst w'.
      split; [cbn [poll_world]; rewrite Et; reflexivity |].
      split; [lia |]. intros k Hk. lia.
Qed.

(** Conversely the loop does return there, given the fuel to reach it. *)
Lemma sleep_loop_exit (su : timeUnit) (n : nat) :
  forall w fuel,
  (forall k, (k < n)%nat -> sample k w < su) ->
  su <= sample n w ->
  (n < fuel)%nat ->
  sleep_loop fuel su w = Ret (poll_world (S n) w).
Proof.
  induction n as [| n IH]; intros w fuel Hbelow Hsu Hfuel;
    (destruct fuel as [| fuel]; [lia |]); cbn [sleep_loop].
  - destruct (ticks w) as [t w1] eqn:Et.
    assert (Ht : t = sample 0 w) by (unfold sample; cbn [poll_world]; rewrite Et; reflexivity).
    destruct (Z.ltb_spec t su) as [Hlt | Hge]; [lia |].
    cbn [poll_world]. rewrite Et. reflexivity.
  - destruct (ticks w) as [t w1] eqn:Et.
    assert (Ht : t = sample 0 w) by (unfold sample; cbn [poll_world]; rewrite Et; reflexivity).
    destruct (Z.ltb_spec t su) as [Hlt | Hge].
    + assert (Hw : w1 = snd (ticks w)) by (rewrite Et; reflexivity).
      rewrite (IH w1 fuel).
      * subst w1. reflexivity.
      * intros k Hk. subst w1. apply (Hbelow (S k)). lia.
      * subst w1. exact Hsu.
      * lia.
    + specialize (Hbelow O ltac:(lia)). lia.
Qed.

Lemma sleepTicks_unfold (fuel : nat) (d : timeUnit) (w : world) :
  sleepTicks fuel d w = sleep_loop fuel (add64 (sample 0 w) d) (poll_world 1 w).
Proof.
  unfold sleepTicks, sample. cbn [poll_world].
  destruct (ticks w) as [t0 w1]. reflexivity.
Qed.

(** What [sleepTicks] does in terms of the samples it takes: sample 0 fixes
    the deadline, samples 1, 2, ... are the loop tests. *)
Lemma sleepTicks_ret (fuel : nat) (d : timeUnit) (w w' : world) :
  sleepTicks fuel d w = Ret w' ->
  exists n, (1 <= n <= fuel)%nat
    /\ w' = poll_world (S n) w
    /\ add64 (sample 0 w) d <= sample n w
    /\ forall k, (1 <= k < n)%nat -> sample k w < add64 (sample 0 w) d.
Proof.
  rewrite sleepTicks_unfold. intros H.
  destruct (sleep_loop_ret _ _ _ _ H) as (n & Hn & Hw' & Hsu & Hbelow).
  exists (S n). split; [lia |]. split; [exact Hw' |]. split; [exact Hsu |].
  intros [| k] Hk; [lia |]. apply (Hbelow k). lia.
Qed.

Lemma sleepTicks_exit (d : timeUnit) (n fuel : nat) (w : world) :
  (1 <= n <= fuel)%nat ->
  (forall k, (1 <= k < n)%nat -> sample k w < add64 (sample 0 w) d) ->
  add64 (sample 0 w) d <= sample n w ->
  sleepTicks fuel d w = Ret (poll_world (S n) w).
Proof.
  intros Hn Hbelow Hsu. rewrite sleepTicks_unfold.
  destruct n as [| n]; [lia |].
  rewrite (sleep_loop_exit _ n); [reflexivity | | exact Hsu | lia].
  intros k Hk. apply (Hbelow (S k)). lia.
Qed.

(** C6 (as amended): under a simulated counter that shows [c0] at the call
    and [step] more at each later poll, for [d >= 0] with the deadline and
    the counter within the non-negative [timeUnit] range, [sleepTicks d]
    returns only at the first poll whose value is at least the value at the
    call plus [d] (every earlier poll of the loop was below it); it does
    return when the counter advances at all; and [sleepTicks 0] returns at
    the first test of its loop, after the two polls every call makes. *)
Theorem sleepTicks_deadline (w : world) (c0 step d : Z) :
  (forall k, osc (hw w) (polls (hw w) + k)%nat = c0 + step * Z.of_nat k) ->
  0 <= c0 -> 0 <= step -> 0 <= d ->
  c0 + d + step <= max_int64 ->
  sample 0 w = c0
  /\ (forall fuel w', sleepTicks fuel d w = Ret w' ->
        exists n, (1 <= n <= fuel)%nat
          /\ w' = poll_world (S n) w
          /\ sample 0 w + d <= sample n w
          /\ forall k, (1 <= k < n)%nat -> sample k w < sample 0 w + d)
  /\ (0 < step ->
        exists n, (1 <= n)%nat
          /\ sample n w = c0 + step * Z.of_nat n
          /\ forall fuel, (n <= fuel)%nat ->
               sleepTicks fuel d w = Ret (poll_world (S n) w))
  /\ (d = 0 -> forall fuel, (1 <= fuel)%nat ->
        sleepTicks fuel d w = Ret (poll_world 2 w)).
Proof.
  intros Hsim Hc0 Hstep Hd Hmax.
  assert (Hsample : forall k, c0 + step * Z.of_nat k <= max_int64 ->
                              sample k w = c0 + step * Z.of_nat k).
  { intros k Hk. rewrite sample_value, Hsim.
    apply int64_uint64_small. nia. }
  assert (H0 : sample 0 w = c0).
  { rewrite Hsample; cbn [Z.of_nat]; lia. }
  assert (Hdl : add64 (sample 0 w) d = c0 + d).
  { rewrite H0. unfold add64. apply int64_id. unfold min_int64. lia. }
  split; [exact H0 |]. split; [| split].
  - intros fuel w' Hret.
    destruct (sleepTicks_ret _ _ _ _ Hret) as (n & Hn & Hw' & Hsu & Hbelow).
    exists n. rewrite Hdl in Hsu. rewrite H0.
    split; [exact Hn |]. split; [exact Hw' |]. split; [exact Hsu |].
    intros k Hk. rewrite <- Hdl. apply Hbelow. exact Hk.
  - intros Hpos.
    pose proof (Z.div_mod (d + step - 1) step ltac:(lia)) as Hdm.
    pose proof (Z.mod_pos_bound (d + step - 1) step Hpos) as Hr.
    set (q := (d + step - 1) / step) in *.
    set (r := (d + step - 1) mod step) in *.
    set (N := Z.max 1 q).
    assert (HN1 : 1 <= N) by (subst N; lia).
    assert (Hge : d <= step * N) by (subst N; nia).
    assert (Hle : step * N <= d + step) by (subst N; nia).
    assert (Hlt : forall k, 1 <= k < N -> step * k < d) by (intros k Hk; subst N; nia).
    exists (Z.to_nat N).
    assert (HNn : Z.of_nat (Z.to_nat N) = N) by lia.
    split; [lia |].
    split; [rewrite Hsample; rewrite HNn; lia |].
    intros fuel Hfuel. apply sleepTicks_exit.
    + lia.
    + intros k Hk. rewrite Hdl.
      specialize (Hlt (Z.of_nat k) ltac:(lia)).
      rewrite Hsample; nia.
    + rewrite Hdl, Hsample; rewrite HNn; lia.
  - intros Hd0 fuel Hfuel. subst d. apply (sleepTicks_exit 0 1 fuel w).
    + lia.
    + intros k Hk. lia.
    + rewrite Hdl, Hsample; cbn [Z.of_nat]; lia.
Qed.

Lemma sleepTicks_deadline_witness :
  let w := boot (sim_machine 5 7) in
  sample 0 w = 5
  /\ (exists n, (1 <= n)%nat /\ sample n w = 5 + 7 * Z.of_nat n
        /\ sleepTicks n 20 w = Ret (poll_world (S n) w))
  /\ trace (world_of (sleepTicks 3 20 w)) =
       [ RegSet TIMG0_T0UPDATE_REG 0; RegGet TIMG0_T0LO_REG 5; RegGet TIMG0_T0HI_REG 0;
         RegSet TIMG0_T0UPDATE_REG 0; RegGet TIMG0_T0LO_REG 12; RegGet TIMG0_T0HI_REG 0;
         RegSet TIMG0_T0UPDATE_REG 0; RegGet TIMG0_T0LO_REG 19; RegGet TIMG0_T0HI_REG 0;
         RegSet TIMG0_T0UPDATE_REG 0; RegGet TIMG0_T0LO_REG 26; RegGet TIMG0_T0HI_REG 0 ].
Proof.
  intros w.
  destruct (sleepTicks_deadline w 5 7 20) as (H0 & _ & Hterm & _).
  - intros k. subst w. cbn [boot hw sim_machine osc polls]. lia.
  - lia.
  - lia.
  - lia.
  - unfold max_int64. lia.
  - split; [exact H0 |]. split.
    + destruct (Hterm ltac:(lia)) as (n & Hn & Hs & Hex).
      exists n. split; [exact Hn |]. split; [exact Hs |].
      apply Hex. lia.
    + vm_compute. reflexivity.
Defined.

(** C6 (as stated) fails for a large [d]: with the counter at 1 the
    deadline [1 + max_int64] wraps around to [min_int64], the first test of
    the loop ends it, and the call returns while [ticks] shows 2, far below
    the value at the call plus [d]. *)
Lemma sleepTicks_returns_early :
  let w := boot (sim_machine 1 1) in
  let d := max_int64 in
  0 <= d
  /\ sample 0 w = 1
  /\ add64 (sample 0 w) d = min_int64
  /\ returned (sleepTicks 1 d w) = true
  /\ trace (world_of (sleepTicks 1 d w)) =
       [ RegSet TIMG0_T0UPDATE_REG 0; RegGet TIMG0_T0LO_REG 1; RegGet TIMG0_T0HI_REG 0;
         RegSet TIMG0_T0UPDATE_REG 0; RegGet TIMG0_T0LO_REG 2; RegGet TIMG0_T0HI_REG 0 ]
  /\ sample 1 w = 2
  /\ sample 1 w < sample 0 w + d.
Proof.
  cbn zeta.
  split; [unfold max_int64; lia |].
  split; [vm_compute; reflexivity |].
  split; [vm_compute; reflexivity |].
  split; [vm_compute; reflexivity |].
  split; [vm_compute; reflexivity |].
  split; [vm_compute; reflexivity |].
  vm_compute. reflexivity.
Qed.

(** C10 (as amended): for [d < 0], if the second sample is not below the
    first and the deadline [ticks() + d] does not wrap around below
    [min_int64] (it cannot while the counter is below [2^63], where
    samples are non-negative), the deadline is at or below the sample of
    the first loop test, and [sleepTicks d] returns right after that one
    poll: the loop body never executes. *)
Theorem sleepTicks_negative (w : world) (d : timeUnit) (fuel : nat) :
  d < 0 ->
  sample 0 w <= sample 1 w ->
  min_int64 <= sample 0 w + d ->
  (1 <= fuel)%nat ->
  add64 (sample 0 w) d = sample 0 w + d
  /\ add64 (sample 0 w) d <= sample 1 w
  /\ sleepTicks fuel d w = Ret (poll_world 2 w)
  /\ trace (poll_world 2 w) =
       trace w ++
       [ RegSet TIMG0_T0UPDATE_REG 0;
         RegGet TIMG0_T0LO_REG (uint32 (pending w));
         RegGet TIMG0_T0HI_REG (uint32 (pending w / 2 ^ 32));
         RegSet TIMG0_T0UPDATE_REG 0;
         RegGet TIMG0_T0LO_REG (uint32 (pending (poll_world 1 w)));
         RegGet TIMG0_T0HI_REG (uint32 (pending (poll_world 1 w) / 2 ^ 32)) ].
Proof.
  intros Hd Hmono Hmin Hfuel.
  assert (Hr0 : min_int64 <= sample 0 w <= max_int64).
  { unfold sample. rewrite ticks_value. apply int64_range. }
  assert (Hdl : add64 (sample 0 w) d = sample 0 w + d).
  { unfold add64. apply int64_id. lia. }
  split; [exact Hdl |]. split; [lia |]. split.
  - apply (sleepTicks_exit d 1 fuel w).
    + lia.
    + intros k Hk. lia.
    + lia.
  - cbn [poll_world]. rewrite (ticks_eq (snd (ticks w))).
    cbn [snd trace]. rewrite (ticks_eq w). cbn [snd trace].
    rewrite <- app_assoc. reflexivity.
Qed.

Lemma sleepTicks_negative_witness :
  let w := boot (sim_machine 100 7) in
  sample 0 w <= sample 1 w
  /\ sleepTicks 1 (-30) w = Ret (poll_world 2 w).
Proof.
  intros w.
  assert (H0 : sample 0 w = 100) by (vm_compute; reflexivity).
  assert (H1 : sample 1 w = 107) by (vm_compute; reflexivity).
  split; [lia |].
  apply (sleepTicks_negative w (-30) 1).
  - lia.
  - lia.
  - rewrite H0. unfold min_int64. lia.
  - lia.
Defined.

(** C10 (as stated) fails when [ticks] returns negative values (counter at
    [2^63] or beyond): the samples never decrease, but the deadline
    [min_int64 + (-1)] wraps around to [max_int64], the first test of the
    loop succeeds and the loop keeps polling. *)
Lemma sleepTicks_negative_waits :
  let w := boot (sim_machine (2 ^ 63) 1) in
  let d := -1 in
  d < 0
  /\ (forall k, (k < 100)%nat -> sample k w <= sample (S k) w)
  /\ sample 0 w = min_int64
  /\ add64 (sample 0 w) d = max_int64
  /\ sample 1 w < add64 (sample 0 w) d
  /\ returned (sleepTicks 1 d w) = false
  /\ returned (sleepTicks 100 d w) = false.
Proof.
  cbn zeta.
  assert (Hs : forall k, (k <= 100)%nat ->
             sample k (boot (sim_machine (2 ^ 63) 1)) = Z.of_nat k - 2 ^ 63).
  { intros k Hk. rewrite sample_value.
    cbn [boot hw sim_machine osc polls]. unfold int64, uint64.
    replace (2 ^ 63 + 1 * Z.of_nat (0 + k)) with (2 ^ 63 + Z.of_nat k) by lia.
    rewrite (Z.mod_small (2 ^ 63 + Z.of_nat k)) by lia.
    replace (2 ^ 63 + Z.of_nat k + 2 ^ 63) with (Z.of_nat k + 1 * 2 ^ 64) by lia.
    rewrite Z.mod_add by lia. rewrite Z.mod_small by lia. lia. }
  split; [lia |].
  split; [intros k Hk; rewrite !Hs by lia; lia |].
  split; [vm_compute; reflexivity |].
  split; [vm_compute; reflexivity |].
  split; [vm_compute; reflexivity |].
  split; [vm_compute; reflexivity |].
  vm_compute. reflexivity.
Qed.

(* ================================================================== *)
(** ** Zeroing of .bss *)

Lemma ptr_at_shift (s : Z) (k : nat) :
  ptr_at s (S k) = ptr_at (uint32 (s + 4)) k.
Proof.
  induction k as [| k IH]; [reflexivity |].
  change (ptr_at s (S (S k))) with (uint32 (ptr_at s (S k) + 4)).
  rewrite IH. reflexivity.
Qed.

(** The loop runs [n] iterations when [n] is the first index at which the
    pointer meets [_ebss]. *)
Lemma zero_loop_run (ebss : Z) (n : nat) :
  forall ptr w fuel,
  (forall k, (k < n)%nat -> ptr_at ptr k <> ebss) ->
  ptr_at ptr n = ebss ->
  (n < fuel)%nat ->
  zero_loop ebss fuel ptr w = Ret (zero_words n ptr w).
Proof.
  induction n as [| n IH]; intros ptr w fuel Hne Heq Hfuel;
    (destruct fuel as [| fuel]; [lia |]); cbn [zero_loop zero_words].
  - cbn [ptr_at] in Heq. subst ebss. rewrite Z.eqb_refl. reflexivity.
  - pose proof (Hne O ltac:(lia)) as H0. cbn [ptr_at] in H0.
    destruct (Z.eqb_spec ptr ebss) as [E | E]; [contradiction |].
    cbn [negb]. apply IH.
    + intros k Hk. rewrite <- ptr_at_shift. apply Hne. lia.
    + rewrite <- ptr_at_shift. exact Heq.
    + lia.
Qed.

(** While the pointer has not met [_ebss] the loop keeps storing. *)
Lemma zero_loop_spin (ebss : Z) (fuel : nat) :
  forall ptr w,
  (forall k, (k < fuel)%nat -> ptr_at ptr k <> ebss) ->
  zero_loop ebss fuel ptr w = Spin (zero_words fuel ptr w).
Proof.
  induction fuel as [| fuel IH]; intros ptr w Hne; cbn [zero_loop zero_words].
  - reflexivity.
  - pose proof (Hne O ltac:(lia)) as H0. cbn [ptr_at] in H0.
    destruct (Z.eqb_spec ptr ebss) as [E | E]; [contradiction |].
    cbn [negb]. apply IH.
    intros k Hk. rewrite <- ptr_at_shift. apply Hne. lia.
Qed.

Lemma ptr_at_linear (s : Z) (k : nat) :
  0 <= s -> s + 4 * Z.of_nat k < 2 ^ 32 -> ptr_at s k = s + 4 * Z.of_nat k.
Proof.
  intros Hs. induction k as [| k IH]; intros Hk; cbn [ptr_at].
  - cbn [Z.of_nat]. lia.
  - rewrite IH by lia. rewrite uint32_small by lia. lia.
Qed.

Lemma store32_mem_zero (p : Z) (f : Z -> Z) (a : Z) :
  0 <= p -> p + 4 <= 2 ^ 32 ->
  store32_mem p 0 f a = if (p <=? a) && (a <? p + 4) then 0 else f a.
Proof.
  intros Hp Hq. unfold store32_mem, store_byte.
  rewrite !uint32_small by lia.
  change (0 / 2 ^ 24) with 0. change (0 / 2 ^ 16) with 0.
  change (0 / 2 ^ 8) with 0. change (0 mod 2 ^ 8) with 0.
  destruct (Z.leb_spec p a), (Z.ltb_spec a (p + 4)); cbn [andb];
    repeat match goal with
           | |- context [?x =? ?y] => destruct (Z.eqb_spec x y)
           end; try reflexivity; lia.
Qed.

Lemma zero_words_frame (n : nat) :
  forall ptr w,
  regs (hw (zero_words n ptr w)) = regs (hw w)
  /\ osc (hw (zero_words n ptr w)) = osc (hw w)
  /\ polls (hw (zero_words n ptr w)) = polls (hw w).
Proof.
  induction n as [| n IH]; intros ptr w; cbn [zero_words].
  - repeat split.
  - destruct (IH (uint32 (ptr + 4)) (store32 ptr 0 w)) as (Hr & Ho & Hp).
    rewrite Hr, Ho, Hp. repeat split.
Qed.

Lemma zero_words_mem (n : nat) :
  forall ptr w a,
  0 <= ptr -> ptr + 4 * Z.of_nat n < 2 ^ 32 ->
  mem (hw (zero_words n ptr w)) a =
  if (ptr <=? a) && (a <? ptr + 4 * Z.of_nat n) then 0 else mem (hw w) a.
Proof.
  induction n as [| n IH]; intros ptr w a Hp Hn; cbn [zero_words].
  - destruct (Z.leb_spec ptr a), (Z.ltb_spec a (ptr + 4 * Z.of_nat 0));
      cbn [andb]; try reflexivity; lia.
  - rewrite uint32_small by lia.
    rewrite IH by lia. cbn [store32 hw mem].
    rewrite store32_mem_zero by lia.
    destruct (Z.leb_spec (ptr + 4) a), (Z.ltb_spec a (ptr + 4 + 4 * Z.of_nat n)),
      (Z.leb_spec ptr a), (Z.ltb_spec a (ptr + 4)),
      (Z.ltb_spec a (ptr + 4 * Z.of_nat (S n)));
      cbn [andb]; try reflexivity; lia.
Qed.

Lemma zero_words_trace (n : nat) :
  forall ptr w,
  trace (zero_words n ptr w) = trace w ++ zero_events ptr n.
Proof.
  unfold zero_events.
  induction n as [| n IH]; intros ptr w; cbn [zero_words].
  - cbn. rewrite app_nil_r. reflexivity.
  - rewrite IH. cbn [store32 trace]. rewrite <- app_assoc.
    f_equal. cbn [seq map app ptr_at]. f_equal.
    rewrite <- seq_shift, map_map.
    apply map_ext. intros k. rewrite ptr_at_shift. reflexivity.
Qed.

Section ZeroInit.

Variables sbss ebss : Z.
Hypothesis Hs : 0 <= sbss.
Hypothesis Hle : sbss <= ebss.
Hypothesis He : ebss < 2 ^ 32.
Hypothesis Hmul : (ebss - sbss) mod 4 = 0.

Lemma bss_words_end : sbss + 4 * Z.of_nat (bss_words sbss ebss) = ebss.
Proof.
  unfold bss_words.
  pose proof (Z.div_mod (ebss - sbss) 4 ltac:(lia)) as Hdm.
  assert (0 <= (ebss - sbss) / 4) by (apply Z.div_pos; lia).
  rewrite Z2Nat.id by assumption. lia.
Qed.

Lemma zero_init_runs (fuel : nat) (w : world) :
  (bss_words sbss ebss < fuel)%nat ->
  zero_init sbss ebss fuel w = Ret (zero_words (bss_words sbss ebss) sbss w).
Proof.
  intros Hfuel. unfold zero_init. pose proof bss_words_end as Hend.
  apply zero_loop_run; [| | exact Hfuel].
  - intros k Hk. rewrite ptr_at_linear by lia. lia.
  - rewrite ptr_at_linear by lia. exact Hend.
Qed.

Lemma zeroed_mem (w : world) (a : Z) :
  mem (hw (zero_words (bss_words sbss ebss) sbss w)) a =
  if (sbss <=? a) && (a <? ebss) then 0 else mem (hw w) a.
Proof.
  pose proof bss_words_end as Hend.
  rewrite zero_words_mem by lia. rewrite Hend. reflexivity.
Qed.

End ZeroInit.

(** C2: for bounds [start <= end] (32-bit addresses) with [end - start] a
    multiple of 4, the zero-init loop returns, and afterwards every 4-byte
    word lying in [[start, end)] reads as zero, while every word outside of
    it, indeed every byte outside of it, holds the value it held before;
    registers and the timer are not touched. *)
Theorem zero_init_correct (sbss ebss : Z) (fuel : nat) (w : world) :
  0 <= sbss -> sbss <= ebss -> ebss < 2 ^ 32 ->
  (ebss - sbss) mod 4 = 0 ->
  (bss_words sbss ebss < fuel)%nat ->
  exists w',
    zero_init sbss ebss fuel w = Ret w'
    /\ (forall a, sbss <= a -> a + 4 <= ebss -> load32 (mem (hw w')) a = 0)
    /\ (forall a, 0 <= a -> a + 4 <= 2 ^ 32 -> a + 4 <= sbss \/ ebss <= a ->
          load32 (mem (hw w')) a = load32 (mem (hw w)) a)
    /\ (forall a, sbss <= a < ebss -> mem (hw w') a = 0)
    /\ (forall a, ~ (sbss <= a < ebss) -> mem (hw w') a = mem (hw w) a)
    /\ regs (hw w') = regs (hw w)
    /\ osc (hw w') = osc (hw w) /\ polls (hw w') = polls (hw w).
Proof.
  intros Hs Hle He Hmul Hfuel.
  exists (zero_words (bss_words sbss ebss) sbss w).
  split; [apply zero_init_runs; assumption |].
  pose proof (zeroed_mem sbss ebss Hs Hle He Hmul w) as Hmem.
  assert (Hin : forall a, sbss <= a < ebss ->
            mem (hw (zero_words (bss_words sbss ebss) sbss w)) a = 0).
  { intros a Ha. rewrite Hmem.
    destruct (Z.leb_spec sbss a), (Z.ltb_spec a ebss); cbn [andb];
      try reflexivity; lia. }
  assert (Hout : forall a, ~ (sbss <= a < ebss) ->
            mem (hw (zero_words (bss_words sbss ebss) sbss w)) a = mem (hw w) a).
  { intros a Ha. rewrite Hmem.
    destruct (Z.leb_spec sbss a), (Z.ltb_spec a ebss); cbn [andb];
      try reflexivity; lia. }
  split; [| split; [| split; [exact Hin | split; [exact Hout |]]]].
  - intros a Ha1 Ha2. unfold load32.
    rewrite !uint32_small by lia.
    rewrite !Hin by lia. reflexivity.
  - intros a Ha0 Ha1 Ha2. unfold load32.
    rewrite !uint32_small by lia.
    rewrite !Hout by lia. reflexivity.
  - apply zero_words_frame.
Qed.

Lemma zero_init_correct_witness :
  exists w',
    zero_init 0x100 0x108 3 (boot (sim_machine 0 1)) = Ret w'
    /\ load32 (mem (hw w')) 0x100 = 0
    /\ load32 (mem (hw w')) 0x104 = 0
    /\ load32 (mem (hw w')) 0x108 = 0xA5A5A5A5
    /\ load32 (mem (hw w')) 0xFC = 0xA5A5A5A5.
Proof.
  destruct (zero_init_correct 0x100 0x108 3 (boot (sim_machine 0 1)))
    as (w' & Hrun & Hin & Hout & _).
  - lia.
  - lia.
  - lia.
  - reflexivity.
  - vm_compute. lia.
  - exists w'. split; [exact Hrun |].
    split; [apply Hin; lia |].
    split; [apply Hin; lia |].
    split; [rewrite Hout by lia; reflexivity |].
    rewrite Hout by lia. reflexivity.
Defined.

(** C3: for every region with [end - start] a non-negative multiple of 4
    the zero-init loop terminates (after one iteration per word, none for
    the empty region, which leaves the world as it was), and running it
    again on the result leaves every byte of memory, the registers and the
    timer as the first run left them. *)
Theorem zero_init_idempotent (sbss ebss : Z) (fuel : nat) (w : world) :
  0 <= sbss -> sbss <= ebss -> ebss < 2 ^ 32 ->
  (ebss - sbss) mod 4 = 0 ->
  (bss_words sbss ebss < fuel)%nat ->
  exists w1 w2,
    zero_init sbss ebss fuel w = Ret w1
    /\ trace w1 = trace w ++ zero_events sbss (bss_words sbss ebss)
    /\ zero_init sbss ebss fuel w1 = Ret w2
    /\ (forall a, mem (hw w2) a = mem (hw w1) a)
    /\ regs (hw w2) = regs (hw w1)
    /\ osc (hw w2) = osc (hw w1) /\ polls (hw w2) = polls (hw w1)
    /\ (sbss = ebss -> w1 = w /\ w2 = w).
Proof.
  intros Hs Hle He Hmul Hfuel.
  exists (zero_words (bss_words sbss ebss) sbss w).
  exists (zero_words (bss_words sbss ebss) sbss
            (zero_words (bss_words sbss ebss) sbss w)).
  split; [apply zero_init_runs; assumption |].
  split; [apply zero_words_trace |].
  split; [apply zero_init_runs; assumption |].
  split; [| split; [| split; [| split]]].
  - intros a. rewrite !(zeroed_mem sbss ebss Hs Hle He Hmul).
    destruct ((sbss <=? a) && (a <? ebss)); reflexivity.
  - apply zero_words_frame.
  - apply zero_words_frame.
  - apply zero_words_frame.
  - intros Heq. subst ebss. unfold bss_words.
    rewrite Z.sub_diag. cbn. split; reflexivity.
Qed.

Lemma zero_init_idempotent_witness :
  exists w1 w2,
    zero_init 0x100 0x108 3 (boot (sim_machine 0 1)) = Ret w1
    /\ trace w1 = [Store32 0x100 0; Store32 0x104 0]
    /\ zero_init 0x100 0x108 3 w1 = Ret w2
    /\ (forall a, mem (hw w2) a = mem (hw w1) a).
Proof.
  destruct (zero_init_idempotent 0x100 0x108 3 (boot (sim_machine 0 1)))
    as (w1 & w2 & H1 & Ht & H2 & Hm & _).
  - lia.
  - lia.
  - lia.
  - reflexivity.
  - vm_compute. lia.
  - exists w1, w2. repeat split; assumption.
Defined.

(* ================================================================== *)
(** ** The boot sequence *)

Lemma abort_spin (fuel : nat) :
  forall w, abort fuel w =
            Spin {| hw := hw w; trace := trace w ++ repeat Wfi fuel |}.
Proof.
  induction fuel as [| fuel IH]; intros w; cbn [abort repeat].
  - rewrite app_nil_r. destruct w; reflexivity.
  - rewrite IH. cbn [wfi hw trace]. rewrite <- app_assoc. reflexivity.
Qed.

(** Either the pointer misses [_ebss] during the first [fuel] iterations,
    or there is a first iteration count at which it meets it. *)
Lemma first_hit (ebss : Z) (fuel : nat) (ptr : Z) :
  (forall k, (k < fuel)%nat -> ptr_at ptr k <> ebss)
  \/ exists n, (n < fuel)%nat /\ ptr_at ptr n = ebss
               /\ forall k, (k < n)%nat -> ptr_at ptr k <> ebss.
Proof.
  induction fuel as [| fuel IH].
  - left. intros k Hk. lia.
  - destruct IH as [Hmiss | (n & Hn & Heq & Hfirst)].
    + destruct (Z.eq_dec (ptr_at ptr fuel) ebss) as [E | E].
      * right. exists fuel. split; [lia |]. split; assumption.
      * left. intros k Hk.
        destruct (Nat.eq_dec k fuel) as [-> | Hne]; [exact E |].
        apply Hmiss. lia.
    + right. exists n. split; [lia |]. split; assumption.
Qed.

Section BootFacts.

Variable K : esp_consts.
Variables sbss ebss : Z.
Variable run : machine -> option machine.

Lemma watchdog_disable_trace (w : world) :
  trace (watchdog_disable K w) = trace w ++ watchdog_events K.
Proof.
  unfold watchdog_disable, watchdog_events, Set_. cbn [trace].
  rewrite <- !app_assoc. reflexivity.
Qed.

Lemma clock_config_trace (w : world) :
  trace (clock_config K w) = trace w ++ clock_events K.
Proof.
  unfold clock_config, clock_events, Set_. cbn [trace].
  rewrite <- !app_assoc. reflexivity.
Qed.

Lemma timebase_config_trace (w : world) :
  trace (timebase_config K w) = trace w ++ timebase_events K.
Proof.
  unfold timebase_config, timebase_events, Set_. cbn [trace].
  rewrite <- !app_assoc. reflexivity.
Qed.

Lemma handoff_trace (n : nat) (w : world) :
  trace (handoff K sbss n w) =
  trace w ++ watchdog_events K ++ clock_events K
          ++ zero_events sbss n ++ timebase_events K.
Proof.
  unfold handoff.
  rewrite timebase_config_trace, zero_words_trace,
    clock_config_trace, watchdog_disable_trace.
  rewrite <- !app_assoc. reflexivity.
Qed.

(** [main] when the zeroing loop is still running at the end of the
    fuel. *)
Lemma main_zeroing (fuel : nat) (w : world) :
  (forall k, (k < fuel)%nat -> ptr_at sbss k <> ebss) ->
  main K sbss ebss run fuel w =
  Spin (zero_words fuel sbss (clock_config K (watchdog_disable K w))).
Proof.
  intros Hmiss. unfold main, zero_init.
  rewrite zero_loop_spin by exact Hmiss. reflexivity.
Qed.

(** [main] when the zeroing loop ends after [n] iterations: [run] is
    called, and if it comes back the core is parked in [abort]. *)
Lemma main_handoff (fuel n : nat) (w : world) :
  (n < fuel)%nat ->
  ptr_at sbss n = ebss ->
  (forall k, (k < n)%nat -> ptr_at sbss k <> ebss) ->
  main K sbss ebss run fuel w =
  match run (hw (handoff K sbss n w)) with
  | Some m' =>
      Spin {| hw := m';
              trace := trace (handoff K sbss n w) ++ CallRun :: repeat Wfi fuel |}
  | None =>
      Spin {| hw := hw (handoff K sbss n w);
              trace := trace (handoff K sbss n w) ++ [CallRun] |}
  end.
Proof.
  intros Hn Heq Hfirst. unfold main, zero_init.
  rewrite (zero_loop_run ebss n) by assumption.
  fold (handoff K sbss n w). unfold call_run. cbn [hw trace].
  destruct (run (hw (handoff K sbss n w))) as [m' |]; [| reflexivity].
  rewrite abort_spin. cbn [hw trace]. rewrite <- app_assoc. reflexivity.
Qed.

(** Shape of the trace of [main] for any amount of fuel. *)
Lemma main_trace (fuel : nat) (w : world) :
  exists n tail,
    trace (world_of (main K sbss ebss run fuel w)) =
      trace w ++ watchdog_events K ++ clock_events K
              ++ zero_events sbss n ++ tail
    /\ (tail = []
        \/ (ptr_at sbss n = ebss
            /\ (forall k, (k < n)%nat -> ptr_at sbss k <> ebss)
            /\ exists j, tail = timebase_events K ++ CallRun :: repeat Wfi j)).
Proof.
  destruct (first_hit ebss fuel sbss) as [Hmiss | (n & Hn & Heq & Hfirst)].
  - exists fuel, []. rewrite main_zeroing by exact Hmiss. cbn [world_of].
    rewrite zero_words_trace, clock_config_trace, watchdog_disable_trace.
    rewrite <- !app_assoc, app_nil_r. split; [reflexivity | left; reflexivity].
  - rewrite (main_handoff fuel n) by assumption.
    destruct (run (hw (handoff K sbss n w))) as [m' |]; cbn [world_of trace];
      rewrite handoff_trace, <- !app_assoc.
    + exists n, (timebase_events K ++ CallRun :: repeat Wfi fuel).
      split; [reflexivity |]. right.
      split; [exact Heq |]. split; [exact Hfirst |].
      exists fuel. reflexivity.
    + exists n, (timebase_events K ++ CallRun :: repeat Wfi 0).
      split; [reflexivity |]. right.
      split; [exact Heq |]. split; [exact Hfirst |].
      exists O. reflexivity.
Qed.

Lemma main_never_returns (fuel : nat) (w : world) :
  returned (main K sbss ebss run fuel w) = false.
Proof.
  destruct (first_hit ebss fuel sbss) as [Hmiss | (n & Hn & Heq & Hfirst)].
  - rewrite main_zeroing by exact Hmiss. reflexivity.
  - rewrite (main_handoff fuel n) by assumption.
    destruct (run (hw (handoff K sbss n w))); reflexivity.
Qed.

End BootFacts.

(* ================================================================== *)
(** ** Ordering within the boot trace *)

Lemma Forall_repeat {A : Type} (P : A -> Prop) (x : A) (n : nat) :
  P x -> Forall P (repeat x n).
Proof.
  intros Hx. apply Forall_forall. intros y Hy.
  apply repeat_spec in Hy. subst y. exact Hx.
Qed.

Lemma Forall_zero_events (P : event -> Prop) (s : Z) (n : nat) :
  (forall a v, P (Store32 a v)) -> Forall P (zero_events s n).
Proof.
  intros HP. unfold zero_events. apply Forall_forall. intros e He.
  apply in_map_iff in He. destruct He as (k & <- & _). apply HP.
Qed.

Lemma filter_none {A : Type} (f : A -> bool) (l : list A) :
  Forall (fun x => f x = false) l -> filter f l = [].
Proof.
  induction 1 as [| x l Hx _ IH]; cbn [filter]; [reflexivity |].
  rewrite Hx. exact IH.
Qed.

(** If everything satisfying [P] sits in [A] and everything satisfying [Q]
    in [B], then in [A ++ B] the former precede the latter. *)
Lemma split_order (A B : list event) (P Q : event -> bool) :
  Forall (fun e => Q e = false) A ->
  Forall (fun e => P e = false) B ->
  forall i j e e',
    nth_error (A ++ B) i = Some e -> P e = true ->
    nth_error (A ++ B) j = Some e' -> Q e' = true ->
    (i < j)%nat.
Proof.
  intros HA HB i j e e' Hi HP Hj HQ.
  rewrite Forall_forall in HA, HB.
  assert (Hil : (i < length A)%nat).
  { destruct (Nat.lt_ge_cases i (length A)) as [H | H]; [exact H |].
    rewrite nth_error_app2 in Hi by exact H.
    apply nth_error_In in Hi. rewrite (HB _ Hi) in HP. discriminate. }
  assert (Hjl : (length A <= j)%nat).
  { destruct (Nat.lt_ge_cases j (length A)) as [H | H]; [| exact H].
    rewrite nth_error_app1 in Hj by exact H.
    apply nth_error_In in Hj. rewrite (HA _ Hj) in HQ. discriminate. }
  lia.
Qed.

Lemma nth_error_zero_events (s : Z) (n k : nat) :
  (k < n)%nat -> nth_error (zero_events s n) k = Some (Store32 (ptr_at s k) 0).
Proof.
  intros Hk. unfold zero_events.
  rewrite nth_error_map, nth_error_seq.
  destruct (Nat.ltb_spec k n); [reflexivity | lia].
Qed.

Lemma land_lor_keep (a b c : Z) : Z.land (Z.lor (Z.lor a b) c) a = a.
Proof.
  apply Z.bits_inj'. intros n _.
  rewrite Z.land_spec, !Z.lor_spec.
  destruct (Z.testbit a n); cbn; [reflexivity |].
  apply andb_false_r.
Qed.

Section BootTrace.

Variable K : esp_consts.
Variables sbss ebss : Z.
Variable run : machine -> option machine.

(** A property of all events of the four units, of [CallRun] and of
  [Wfi] holds throughout the trace of [main]. *)
Lemma main_trace_Forall (P : event -> Prop) (fuel : nat) (m : machine) :
Forall P (watchdog_events K) ->
Forall P (clock_events K) ->
(forall a v, P (Store32 a v)) ->
Forall P (timebase_events K) ->
P CallRun -> P Wfi ->
Forall P (trace (world_of (main K sbss ebss run fuel (boot m)))).
Proof.
intros HW HC HS HT HR HF.
destruct (main_trace K sbss ebss run fuel (boot m))
  as (n & tail & Htr & Htail).
rewrite Htr. cbn [boot trace app].
repeat (apply Forall_app; split); try assumption.
- apply Forall_zero_events. exact HS.
- destruct Htail as [-> | (_ & _ & j & ->)]; [constructor |].
  apply Forall_app. split; [exact HT |].
  constructor; [exact HR |]. apply Forall_repeat. exact HF.
Qed.

Lemma main_well_formed (fuel : nat) (m : machine) :
0 <= sbss -> sbss <= ebss -> ebss < 2 ^ 32 ->
(ebss - sbss) mod 4 = 0 ->
(bss_words sbss ebss < fuel)%nat ->
main K sbss ebss run fuel (boot m) =
match run (hw (handoff K sbss (bss_words sbss ebss) (boot m))) with
| Some m' =>
    Spin {| hw := m';
            trace := trace (handoff K sbss (bss_words sbss ebss) (boot m))
                       ++ CallRun :: repeat Wfi fuel |}
| None =>
    Spin {| hw := hw (handoff K sbss (bss_words sbss ebss) (boot m));
            trace := trace (handoff K sbss (bss_words sbss ebss) (boot m))
                       ++ [CallRun] |}
end.
Proof.
intros Hs Hle He Hmul Hfuel.
pose proof (bss_words_end sbss ebss Hle Hmul) as Hend.
apply main_handoff.
- exact Hfuel.
- rewrite ptr_at_linear by lia. exact Hend.
- intros k Hk. rewrite ptr_at_linear by lia. lia.
Qed.

End BootTrace.

(* ================================================================== *)
(** ** Watchdogs *)

(** C1 (as amended): the boot entry begins with the five watchdog writes.
    The RTC watchdog and the super watchdog get the magic constant written
    to their write-protect register immediately before the disable value
    goes to their configuration register; the timer-group watchdog is
    disabled by one write of 0 to its configuration register, the first
    write of all, and its write-protect register is never written. *)
Theorem watchdog_unlock_sequence
    (K : esp_consts) (sbss ebss : Z) (run : machine -> option machine)
    (fuel : nat) (m : machine) (w : world) :
  trace (watchdog_disable K w) =
    trace w ++
    [ RegSet (config_reg MWDT) 0;
      RegSet (wprotect_reg RWDT) 0x50D83AA1;
      RegSet (config_reg RWDT) 0;
      RegSet (wprotect_reg SWD) 0x8F1D312A;
      RegSet (config_reg SWD) (RTC_CNTL_RTC_SWD_CONF_SWD_DISABLE K) ]
  /\ (exists rest,
        trace (world_of (main K sbss ebss run fuel (boot m))) =
        watchdog_events K ++ rest)
  /\ unlocked_disable RWDT (watchdog_events K)
  /\ unlocked_disable SWD (watchdog_events K)
  /\ (forall key,
        ~ In (RegSet (wprotect_reg MWDT) key)
             (trace (world_of (main K sbss ebss run fuel (boot m)))))
  /\ ~ unlocked_disable MWDT
         (trace (world_of (main K sbss ebss run fuel (boot m)))).
Proof.
  assert (Hno : forall key,
             ~ In (RegSet (wprotect_reg MWDT) key)
                  (trace (world_of (main K sbss ebss run fuel (boot m))))).
  { intros key Hin.
    assert (HF : Forall (fun e => writes_to TIMG0_WDTWPROTECT_REG e = false)
                   (trace (world_of (main K sbss ebss run fuel (boot m))))).
    { apply main_trace_Forall; try reflexivity; repeat constructor. }
    rewrite Forall_forall in HF. specialize (HF _ Hin).
    cbn in HF. discriminate. }
  split; [apply watchdog_disable_trace |].
  split.
  { destruct (main_trace K sbss ebss run fuel (boot m)) as (n & tail & Htr & _).
    rewrite Htr. cbn [boot trace app]. eexists. reflexivity. }
  split.
  { exists [RegSet TIMG0_WDTCONFIG0_REG 0], 0x50D83AA1, 0,
      [RegSet RTC_CNTL_RTC_SWD_WPROTECT 0x8F1D312A;
       RegSet RTC_CNTL_RTC_SWD_CONF (RTC_CNTL_RTC_SWD_CONF_SWD_DISABLE K)].
    reflexivity. }
  split.
  { exists [RegSet TIMG0_WDTCONFIG0_REG 0;
            RegSet RTC_CNTL_RTC_WDTWPROTECT 0x50D83AA1;
            RegSet RTC_CNTL_RTC_WDTCONFIG0 0],
      0x8F1D312A, (RTC_CNTL_RTC_SWD_CONF_SWD_DISABLE K), [].
    reflexivity. }
  split; [exact Hno |].
  intros (pre & key & v & post & Htr).
  apply (Hno key). rewrite Htr. apply in_or_app. right. left. reflexivity.
Qed.

Lemma watchdog_unlock_sequence_witness :
  trace (watchdog_disable sample_consts (boot (sim_machine 0 1))) =
    [ RegSet TIMG0_WDTCONFIG0_REG 0;
      RegSet RTC_CNTL_RTC_WDTWPROTECT 0x50D83AA1;
      RegSet RTC_CNTL_RTC_WDTCONFIG0 0;
      RegSet RTC_CNTL_RTC_SWD_WPROTECT 0x8F1D312A;
      RegSet RTC_CNTL_RTC_SWD_CONF 0x40000000 ]
  /\ ~ In (RegSet TIMG0_WDTWPROTECT_REG 0x50D83AA1)
         (trace (world_of (main sample_consts 0x100 0x108 run_returns 3
                             (boot (sim_machine 0 1))))).
Proof.
  destruct (watchdog_unlock_sequence sample_consts 0x100 0x108 run_returns 3
              (sim_machine 0 1) (boot (sim_machine 0 1)))
    as (Htr & _ & _ & _ & Hno & _).
  split; [exact Htr | exact (Hno 0x50D83AA1)].
Defined.

(** C1 (as stated) fails for the timer-group watchdog: its disable write
    is the very first event of the boot trace, so no write to its
    write-protect register comes before it. *)
Lemma main_watchdog_not_unlocked :
  let tr := trace (world_of (main sample_consts 0x100 0x108 run_returns 5
                               (boot (sim_machine 0 1)))) in
  nth_error tr 0 = Some (RegSet (config_reg MWDT) 0)
  /\ ~ (forall d, unlocked_disable d tr).
Proof.
  cbn zeta. split; [vm_compute; reflexivity |].
  intros H. specialize (H MWDT).
  destruct H as (pre & key & v & post & Htr).
  assert (Hin : In (RegSet (wprotect_reg MWDT) key)
                   (trace (world_of (main sample_consts 0x100 0x108 run_returns 5
                                       (boot (sim_machine 0 1)))))).
  { rewrite Htr. apply in_or_app. right. left. reflexivity. }
  vm_compute in Hin.
  repeat (destruct Hin as [Hin | Hin]; [discriminate Hin |]).
  exact Hin.
Qed.

(* ================================================================== *)
(** ** Clock configuration *)

(** C9: the clock configuration is two register writes, first the clock
    source selection in [SYSCLK_CONF], then [CPU_PER_CONF_REG] with the
    period selector and the wait-mode bit forced on; they are the only
    writes to clock registers in the whole trace of the boot entry. *)
Theorem clock_config_two_writes
    (K : esp_consts) (sbss ebss : Z) (run : machine -> option machine)
    (fuel : nat) (m : machine) (w : world) :
  let sel := Z.shiftl 1 (SYSTEM_SYSCLK_CONF_SOC_CLK_SEL_Pos K) in
  let per :=
    Z.lor (Z.lor (SYSTEM_CPU_PER_CONF_REG_CPU_WAIT_MODE_FORCE_ON K)
                 (SYSTEM_CPU_PER_CONF_REG_PLL_FREQ_SEL K))
          (Z.shiftl 1 (SYSTEM_CPU_PER_CONF_REG_CPUPERIOD_SEL_Pos K)) in
  trace (clock_config K w) =
    trace w ++ [ RegSet SYSTEM_SYSCLK_CONF sel;
                 RegSet SYSTEM_CPU_PER_CONF_REG per ]
  /\ Z.land per (SYSTEM_CPU_PER_CONF_REG_CPU_WAIT_MODE_FORCE_ON K)
     = SYSTEM_CPU_PER_CONF_REG_CPU_WAIT_MODE_FORCE_ON K
  /\ regs (hw (clock_config K w)) SYSTEM_SYSCLK_CONF = sel
  /\ regs (hw (clock_config K w)) SYSTEM_CPU_PER_CONF_REG = per
  /\ filter is_clock_write
       (trace (world_of (main K sbss ebss run fuel (boot m)))) =
     [ RegSet SYSTEM_SYSCLK_CONF sel; RegSet SYSTEM_CPU_PER_CONF_REG per ].
Proof.
  intros sel per.
  split; [apply clock_config_trace |].
  split; [apply land_lor_keep |].
  split; [reflexivity |]. split; [reflexivity |].
  destruct (main_trace K sbss ebss run fuel (boot m))
    as (n & tail & Htr & Htail).
  rewrite Htr. cbn [boot trace app]. rewrite !filter_app.
  assert (HZ : filter is_clock_write (zero_events sbss n) = []).
  { apply filter_none. apply Forall_zero_events. reflexivity. }
  assert (HT : filter is_clock_write tail = []).
  { apply filter_none.
    destruct Htail as [-> | (_ & _ & j & ->)]; [constructor |].
    apply Forall_app. split; [repeat constructor |].
    constructor; [reflexivity |]. apply Forall_repeat. reflexivity. }
  rewrite HZ, HT. reflexivity.
Qed.

(* ================================================================== *)
(** ** Boot ordering *)

(** C7: in the trace of the boot entry every watchdog register write comes
    strictly before the timer-enable write to [T0CONFIG_REG], and when
    [run] is called the zeroing loop has met its exit test with the store
    of every iteration strictly before the call; for well-formed bounds the
    trace is the watchdog writes, the clock writes, one zero store per word
    of the region, the timer writes and then the call of [run]. *)
Theorem boot_order
    (K : esp_consts) (sbss ebss : Z) (run : machine -> option machine)
    (fuel : nat) (m : machine) :
  let tr := trace (world_of (main K sbss ebss run fuel (boot m))) in
  (forall i j e v,
      nth_error tr i = Some e -> is_watchdog_write e = true ->
      nth_error tr j = Some (RegSet TIMG0_T0CONFIG_REG v) ->
      (i < j)%nat)
  /\ (forall j,
        nth_error tr j = Some CallRun ->
        exists n,
          ptr_at sbss n = ebss
          /\ (forall k, (k < n)%nat -> ptr_at sbss k <> ebss)
          /\ forall k, (k < n)%nat ->
               exists i, (i < j)%nat
                 /\ nth_error tr i = Some (Store32 (ptr_at sbss k) 0))
  /\ (0 <= sbss -> sbss <= ebss -> ebss < 2 ^ 32 ->
      (ebss - sbss) mod 4 = 0 ->
      (bss_words sbss ebss < fuel)%nat ->
      (exists rest,
         tr = watchdog_events K ++ clock_events K
              ++ zero_events sbss (bss_words sbss ebss)
              ++ timebase_events K ++ CallRun :: rest)
      /\ forall a, sbss <= a < ebss -> (a - sbss) mod 4 = 0 ->
           In (Store32 a 0) (zero_events sbss (bss_words sbss ebss))).
Proof.
  intros tr.
  destruct (main_trace K sbss ebss run fuel (boot m))
    as (n & tail & Htr & Htail).
  cbn [boot trace app] in Htr. fold tr in Htr.
  split; [| split].
  - intros i j e v Hi HP Hj.
    assert (Hsplit : tr = (watchdog_events K ++ clock_events K)
                          ++ (zero_events sbss n ++ tail))
      by (rewrite Htr, <- app_assoc; reflexivity).
    rewrite Hsplit in Hi, Hj.
    apply (split_order (watchdog_events K ++ clock_events K)
             (zero_events sbss n ++ tail)
             is_watchdog_write is_timer_config) with (e := e)
             (e' := RegSet TIMG0_T0CONFIG_REG v);
      try assumption; try reflexivity.
    + repeat constructor.
    + apply Forall_app. split.
      * apply Forall_zero_events. reflexivity.
      * destruct Htail as [-> | (_ & _ & k & ->)]; [constructor |].
        apply Forall_app. split; [repeat constructor |].
        constructor; [reflexivity |]. apply Forall_repeat. reflexivity.
  - intros j Hj.
    set (A := watchdog_events K ++ clock_events K ++ zero_events sbss n).
    assert (Hsplit : tr = A ++ tail)
      by (rewrite Htr; unfold A; rewrite <- !app_assoc; reflexivity).
    assert (HA : Forall (fun e => e <> CallRun) A).
    { unfold A. repeat (apply Forall_app; split).
      - repeat constructor; discriminate.
      - repeat constructor; discriminate.
      - apply Forall_zero_events. discriminate. }
    assert (Hjl : (length A <= j)%nat).
    { destruct (Nat.lt_ge_cases j (length A)) as [H | H]; [| exact H].
      rewrite Hsplit, nth_error_app1 in Hj by exact H.
      apply nth_error_In in Hj. rewrite Forall_forall in HA.
      exfalso. exact (HA _ Hj eq_refl). }
    destruct Htail as [-> | (Heq & Hfirst & _)].
    { rewrite Hsplit, app_nil_r in Hj.
      apply nth_error_In in Hj. rewrite Forall_forall in HA.
      exfalso. exact (HA _ Hj eq_refl). }
    exists n. split; [exact Heq |]. split; [exact Hfirst |].
    intros k Hk.
    exists (length (watchdog_events K ++ clock_events K) + k)%nat.
    assert (HlenA : length A
                    = (length (watchdog_events K ++ clock_events K) + n)%nat).
    { unfold A. rewrite app_assoc, length_app.
      unfold zero_events. rewrite length_map, length_seq. reflexivity. }
    split; [lia |].
    rewrite Htr, app_assoc, app_assoc.
    rewrite <- (app_assoc (watchdog_events K ++ clock_events K)).
    rewrite nth_error_app2 by lia.
    replace (length (watchdog_events K ++ clock_events K) + k
             - length (watchdog_events K ++ clock_events K))%nat with k by lia.
    rewrite nth_error_app1
      by (unfold zero_events; rewrite length_map, length_seq; exact Hk).
    apply nth_error_zero_events. exact Hk.
  - intros Hs Hle He Hmul Hfuel.
    pose proof (bss_words_end sbss ebss Hle Hmul) as Hend.
    split.
    + unfold tr.
      rewrite (main_well_formed K sbss ebss run fuel m Hs Hle He Hmul Hfuel).
      destruct (run _) as [m' |]; cbn [world_of trace];
        rewrite handoff_trace; cbn [boot trace app];
        rewrite <- !app_assoc; eexists; reflexivity.
    + intros a Ha Hmod.
      unfold zero_events. apply in_map_iff.
      pose proof (Z.div_mod (a - sbss) 4 ltac:(lia)) as Hdm.
      assert (Hq : 0 <= (a - sbss) / 4) by (apply Z.div_pos; lia).
      exists (Z.to_nat ((a - sbss) / 4)).
      split.
      * rewrite ptr_at_linear by lia. f_equal. lia.
      * apply in_seq. lia.
Qed.

Lemma boot_order_witness :
  trace (world_of (main sample_consts 0x100 0x108 run_forever 3
                     (boot (sim_machine 0 1)))) =
    watchdog_events sample_consts ++ clock_events sample_consts
    ++ [Store32 0x100 0; Store32 0x104 0]
    ++ timebase_events sample_consts ++ [CallRun]
  /\ In (Store32 0x104 0) (zero_events 0x100 (bss_words 0x100 0x108)).
Proof.
  destruct (boot_order sample_consts 0x100 0x108 run_forever 3
              (sim_machine 0 1)) as (_ & _ & H).
  destruct H as ((rest & Htr) & Hin).
  - lia.
  - lia.
  - lia.
  - reflexivity.
  - vm_compute. lia.
  - split; [vm_compute; reflexivity |].
    apply Hin; [lia | reflexivity].
Defined.

(* ================================================================== *)
(** ** Halt *)

(** C8: [abort] never returns, whatever the fuel, and does nothing but
    issue [wfi]; [main] never returns either.  If [run] returns, leaving
    machine [m'], the trace continues after [CallRun] with [wfi] only and
    the machine stays [m']: no register is written any more.  If [run]
    does not return, no [wfi] is issued. *)
Theorem halt_terminal
    (K : esp_consts) (sbss ebss : Z) (run : machine -> option machine)
    (fuel : nat) (m : machine) :
  0 <= sbss -> sbss <= ebss -> ebss < 2 ^ 32 ->
  (ebss - sbss) mod 4 = 0 ->
  (bss_words sbss ebss < fuel)%nat ->
  let wh := handoff K sbss (bss_words sbss ebss) (boot m) in
  (forall f w,
      abort f w = Spin {| hw := hw w; trace := trace w ++ repeat Wfi f |})
  /\ returned (main K sbss ebss run fuel (boot m)) = false
  /\ (forall m', run (hw wh) = Some m' ->
        main K sbss ebss run fuel (boot m) =
        Spin {| hw := m';
                trace := trace wh ++ CallRun :: repeat Wfi fuel |})
  /\ (run (hw wh) = None ->
        main K sbss ebss run fuel (boot m) =
        Spin {| hw := hw wh; trace := trace wh ++ [CallRun] |})
  /\ Forall (fun e => is_reg_write e = false /\ is_store e = false)
            (CallRun :: repeat Wfi fuel).
Proof.
  intros Hs Hle He Hmul Hfuel wh.
  split; [intros f w; apply abort_spin |].
  split; [apply main_never_returns |].
  pose proof (main_well_formed K sbss ebss run fuel m Hs Hle He Hmul Hfuel)
    as Hmain.
  fold wh in Hmain.
  split; [| split].
  - intros m' Hrun. rewrite Hmain, Hrun. reflexivity.
  - intros Hrun. rewrite Hmain, Hrun. reflexivity.
  - constructor; [split; reflexivity |].
    apply Forall_repeat. split; reflexivity.
Qed.

Lemma halt_terminal_witness :
  trace (world_of (main sample_consts 0x100 0x108 run_returns 3
                     (boot (sim_machine 0 1)))) =
    trace (handoff sample_consts 0x100 2 (boot (sim_machine 0 1)))
    ++ [CallRun; Wfi; Wfi; Wfi]
  /\ returned (main sample_consts 0x100 0x108 run_returns 3
                 (boot (sim_machine 0 1))) = false.
Proof.
  destruct (halt_terminal sample_consts 0x100 0x108 run_returns 3
              (sim_machine 0 1)) as (_ & Hnr & Hret & _).
  - lia.
  - lia.
  - lia.
  - reflexivity.
  - vm_compute. lia.
  - split; [| exact Hnr].
    rewrite (Hret _ eq_refl). reflexivity.
Defined.

(* ================================================================== *)
(** ** More on the tick conversions *)

Lemma rem25_bounds (ns : Z) :
  (0 <= ns -> 0 <= Z.rem ns 25 < 25)
  /\ (ns <= 0 -> -25 < Z.rem ns 25 <= 0).
Proof.
  split; intros H.
  - apply Z.rem_bound_pos; lia.
  - apply (Z.rem_bound_pos_neg ns 25); lia.
Qed.

Lemma nanosecondsToTicks_quot (ns : Z) :
  min_int64 <= ns <= max_int64 -> nanosecondsToTicks ns = Z.quot ns 25.
Proof.
  intros H. unfold nanosecondsToTicks, div64.
  pose proof (Z.quot_rem' ns 25) as Hqr.
  destruct (rem25_bounds ns) as [Hp Hn].
  apply int64_id. unfold min_int64, max_int64 in *.
  destruct (Z.le_ge_cases 0 ns) as [H0 | H0];
    [specialize (Hp H0) | specialize (Hn H0)]; lia.
Qed.

(** On every [int64] duration, negative ones included, converting to ticks
    and back rounds towards zero to a multiple of 25 and never overflows:
    the result is [ns] minus the remainder of the truncating division, so
    a negative duration is rounded up. *)
Theorem roundtrip_toward_zero (ns : Z) :
  min_int64 <= ns <= max_int64 ->
  let r := ticksToNanoseconds (nanosecondsToTicks ns) in
  r = ns - Z.rem ns 25
  /\ r = 25 * Z.quot ns 25
  /\ Z.abs r <= Z.abs ns
  /\ Z.abs (ns - r) < 25
  /\ (ns <= 0 -> ns <= r <= 0).
Proof.
  intros H r. subst r. rewrite nanosecondsToTicks_quot by exact H.
  unfold ticksToNanoseconds, mul64.
  pose proof (Z.quot_rem' ns 25) as Hqr.
  destruct (rem25_bounds ns) as [Hp Hn].
  assert (Hr : int64 (Z.quot ns 25 * 25) = 25 * Z.quot ns 25).
  { rewrite Z.mul_comm. apply int64_id. unfold min_int64, max_int64 in *.
    destruct (Z.le_ge_cases 0 ns) as [H0 | H0];
      [specialize (Hp H0) | specialize (Hn H0)]; lia. }
  rewrite Hr.
  destruct (Z.le_ge_cases 0 ns) as [H0 | H0];
    [specialize (Hp H0) | specialize (Hn H0)]; repeat split; lia.
Qed.

Lemma roundtrip_toward_zero_witness :
  min_int64 <= -1234 <= max_int64
  /\ ticksToNanoseconds (nanosecondsToTicks (-1234)) = -1225.
Proof.
  assert (H : min_int64 <= -1234 <= max_int64)
    by (unfold min_int64, max_int64; lia).
  split; [exact H |].
  destruct (roundtrip_toward_zero (-1234) H) as (_ & Hr & _).
  rewrite Hr. reflexivity.
Defined.

(** Whenever [25 * t] fits [int64], going from ticks to nanoseconds and
    back gives [t] again. *)
Theorem ticks_ns_ticks (t : timeUnit) :
  min_int64 <= 25 * t <= max_int64 ->
  ticksToNanoseconds t = 25 * t
  /\ nanosecondsToTicks (ticksToNanoseconds t) = t.
Proof.
  intros H.
  assert (Hm : ticksToNanoseconds t = 25 * t).
  { unfold ticksToNanoseconds, mul64. rewrite Z.mul_comm.
    apply int64_id. exact H. }
  split; [exact Hm |].
  rewrite Hm, nanosecondsToTicks_quot by exact H.
  rewrite Z.mul_comm. apply Z.quot_mul. lia.
Qed.

Lemma ticks_ns_ticks_witness :
  min_int64 <= 25 * (-40) <= max_int64
  /\ nanosecondsToTicks (ticksToNanoseconds (-40)) = -40.
Proof.
  assert (H : min_int64 <= 25 * (-40) <= max_int64)
    by (unfold min_int64, max_int64; lia).
  split; [exact H |].
  exact (proj2 (ticks_ns_ticks (-40) H)).
Defined.

(** [ticksToNanoseconds] returns the product [25 * t] exactly when that
    product fits [int64]; otherwise the multiplication has wrapped around
    and the result differs from it by a non-zero multiple of [2^64]. *)
Theorem ticksToNanoseconds_exact_iff (t : timeUnit) :
  (ticksToNanoseconds t = 25 * t <-> min_int64 <= 25 * t <= max_int64)
  /\ (ticksToNanoseconds t - 25 * t) mod 2 ^ 64 = 0.
Proof.
  unfold ticksToNanoseconds, mul64. rewrite (Z.mul_comm t 25).
  split; [split |].
  - intros H. rewrite <- H. apply int64_range.
  - apply int64_id.
  - unfold int64.
    pose proof (Z.div_mod (25 * t + 2 ^ 63) (2 ^ 64) ltac:(lia)) as Hdm.
    replace ((25 * t + 2 ^ 63) mod 2 ^ 64 - 2 ^ 63 - 25 * t)
      with (- ((25 * t + 2 ^ 63) / 2 ^ 64) * 2 ^ 64) by lia.
    apply Z.mod_mul. lia.
Qed.

Lemma ticksToNanoseconds_exact_iff_witness :
  ticksToNanoseconds (2 ^ 62) <> 25 * 2 ^ 62
  /\ ticksToNanoseconds (2 ^ 62) = 2 ^ 62.
Proof.
  split; [| vm_compute; reflexivity].
  intros H.
  apply (proj1 (proj1 (ticksToNanoseconds_exact_iff (2 ^ 62)))) in H.
  unfold max_int64 in H. lia.
Defined.

(** [nanosecondsToTicks] is monotone on [int64] and odd: a later instant
    never maps to an earlier tick, and negating a duration negates its
    tick count. *)
Theorem nanosecondsToTicks_monotone (a b : Z) :
  min_int64 <= a -> a <= b -> b <= max_int64 ->
  nanosecondsToTicks a <= nanosecondsToTicks b
  /\ (min_int64 < a -> nanosecondsToTicks (- a) = - nanosecondsToTicks a).
Proof.
  intros Ha Hab Hb.
  rewrite !nanosecondsToTicks_quot by lia.
  split; [apply Z.quot_le_mono; lia |].
  intros Hlt. rewrite nanosecondsToTicks_quot
    by (unfold min_int64, max_int64 in *; lia).
  apply Z.quot_opp_l. lia.
Qed.

Lemma nanosecondsToTicks_monotone_witness :
  nanosecondsToTicks (-60) <= nanosecondsToTicks 49
  /\ nanosecondsToTicks (- (-60)) = - nanosecondsToTicks (-60).
Proof.
  destruct (nanosecondsToTicks_monotone (-60) 49) as [Hm Ho];
    try (unfold min_int64, max_int64; lia).
  split; [exact Hm |]. apply Ho. unfold min_int64. lia.
Defined.

(* ================================================================== *)
(** ** More on [ticks] and [sleepTicks] *)

(** [ticks] reinterprets the 64 latched bits as a signed number: it is the
    counter value itself while bit 63 is clear, the counter value minus
    [2^64] once it is set, and it is negative exactly when bit 31 of the
    high register is set. *)
Theorem ticks_signed_value (w : world) :
  let c := uint64 (pending w) in
  let hi := uint32 (pending w / 2 ^ 32) in
  (c < 2 ^ 63 -> fst (ticks w) = c)
  /\ (2 ^ 63 <= c -> fst (ticks w) = c - 2 ^ 64)
  /\ (fst (ticks w) < 0 <-> 2 ^ 31 <= hi)
  /\ min_int64 <= fst (ticks w) <= max_int64.
Proof.
  intros c hi. rewrite ticks_value. fold c.
  assert (Hc : 0 <= c < 2 ^ 64) by (apply Z.mod_pos_bound; lia).
  assert (Hhi : hi = c / 2 ^ 32).
  { subst hi c. unfold uint32, uint64.
    pose proof (Z.div_mod (pending w) (2 ^ 64) ltac:(lia)) as H1.
    pose proof (Z.mod_pos_bound (pending w) (2 ^ 64) ltac:(lia)) as H2.
    set (q := pending w / 2 ^ 64) in *.
    set (r := pending w mod 2 ^ 64) in *.
    rewrite H1.
    replace (2 ^ 64 * q + r) with (r + (q * 2 ^ 32) * 2 ^ 32) by lia.
    rewrite Z.div_add by lia.
    replace (r / 2 ^ 32 + q * 2 ^ 32) with (r / 2 ^ 32 + q * 2 ^ 32) by lia.
    rewrite Z.mod_add by lia.
    apply Z.mod_small. split.
    - apply Z.div_pos; lia.
    - apply Z.div_lt_upper_bound; lia. }
  assert (Hlow : c < 2 ^ 63 -> int64 c = c).
  { intros H. apply int64_id. unfold min_int64, max_int64. lia. }
  assert (Hhigh : 2 ^ 63 <= c -> int64 c = c - 2 ^ 64).
  { intros H. unfold int64.
    replace (c + 2 ^ 63) with (c - 2 ^ 63 + 1 * 2 ^ 64) by lia.
    rewrite Z.mod_add by lia. rewrite Z.mod_small by lia. lia. }
  split; [exact Hlow |]. split; [exact Hhigh |].
  split; [| apply int64_range].
  rewrite Hhi.
  pose proof (Z.div_mod c (2 ^ 32) ltac:(lia)) as Hdm.
  pose proof (Z.mod_pos_bound c (2 ^ 32) ltac:(lia)) as Hr.
  destruct (Z.lt_ge_cases c (2 ^ 63)) as [H | H].
  - rewrite (Hlow H). split; [lia |]. intros Hge. lia.
  - rewrite (Hhigh H). split; [intros _ | lia]. lia.
Qed.

Lemma ticks_signed_value_witness :
  fst (ticks (boot (sim_machine (2 ^ 63 + 5) 1))) = 5 - 2 ^ 63
  /\ fst (ticks (boot (sim_machine 5 1))) = 5.
Proof.
  destruct (ticks_signed_value (boot (sim_machine (2 ^ 63 + 5) 1)))
    as (_ & Hhigh & _).
  destruct (ticks_signed_value (boot (sim_machine 5 1))) as (Hlow & _).
  split.
  - rewrite Hhigh; vm_compute; [reflexivity | discriminate].
  - rewrite Hlow; vm_compute; reflexivity.
Defined.

Lemma poll_world_add (a b : nat) (w : world) :
  poll_world (a + b) w = poll_world b (poll_world a w).
Proof.
  revert w. induction a as [| a IH]; intros w; cbn [poll_world Nat.add].
  - reflexivity.
  - apply IH.
Qed.

Lemma sample_add (a b : nat) (w : world) :
  sample b (poll_world a w) = sample (a + b) w.
Proof. unfold sample. rewrite poll_world_add. reflexivity. Qed.

(** While every sample is below the deadline the loop is still polling. *)
Lemma sleep_loop_polling (su : timeUnit) (fuel : nat) :
  forall w, (forall k, (k < fuel)%nat -> sample k w < su) ->
  sleep_loop fuel su w = Spin (poll_world fuel w).
Proof.
  induction fuel as [| fuel IH]; intros w Hbelow; cbn [sleep_loop poll_world].
  - reflexivity.
  - destruct (ticks w) as [t w1] eqn:Et.
    assert (Ht : t = sample 0 w)
      by (unfold sample; cbn [poll_world]; rewrite Et; reflexivity).
    pose proof (Hbelow O ltac:(lia)) as H0.
    destruct (Z.ltb_spec t su) as [Hlt | Hge]; [| lia].
    cbn [snd]. apply IH. intros k Hk.
    change (sample k w1) with (sample k (snd (t, w1))). rewrite <- Et.
    apply (Hbelow (S k)). lia.
Qed.

(** Whatever the outcome, the loop has done nothing but call [ticks]. *)
Lemma sleep_loop_world (su : timeUnit) (fuel : nat) :
  forall w, exists k, (k <= fuel)%nat
    /\ world_of (sleep_loop fuel su w) = poll_world k w.
Proof.
  induction fuel as [| fuel IH]; intros w; cbn [sleep_loop].
  - exists O. split; [lia | reflexivity].
  - destruct (ticks w) as [t w1] eqn:Et.
    assert (Hw : w1 = snd (ticks w)) by (rewrite Et; reflexivity).
    destruct (t <? su).
    + destruct (IH w1) as (k & Hk & Hwk). exists (S k).
      split; [lia |]. rewrite Hwk, Hw. reflexivity.
    + exists 1%nat. split; [lia |]. cbn [world_of poll_world].
      rewrite Et. reflexivity.
Qed.

Lemma poll_world_frame (k : nat) :
  forall w,
  mem (hw (poll_world k w)) = mem (hw w)
  /\ (forall r, r <> TIMG0_T0LO_REG -> r <> TIMG0_T0HI_REG ->
        regs (hw (poll_world k w)) r = regs (hw w) r)
  /\ exists evs, trace (poll_world k w) = trace w ++ evs
       /\ length evs = (3 * k)%nat
       /\ Forall (fun e => is_timer_poll e = true) evs.
Proof.
  induction k as [| k IH]; intros w; cbn [poll_world].
  - split; [reflexivity |]. split; [reflexivity |].
    exists []. rewrite app_nil_r. repeat split. constructor.
  - destruct (IH (snd (ticks w))) as (Hm & Hr & evs & Ht & Hl & Hf).
    assert (H1 : mem (hw (snd (ticks w))) = mem (hw w))
      by (rewrite ticks_eq; reflexivity).
    assert (H2 : forall r, r <> TIMG0_T0LO_REG -> r <> TIMG0_T0HI_REG ->
                   regs (hw (snd (ticks w))) r = regs (hw w) r).
    { intros r Hlo Hhi. rewrite ticks_eq. cbn [snd hw latch regs].
      unfold upd, reg_eqb.
      destruct (reg_eq_dec r TIMG0_T0HI_REG); [contradiction |].
      destruct (reg_eq_dec r TIMG0_T0LO_REG); [contradiction |].
      reflexivity. }
    assert (H3 : trace (snd (ticks w)) = trace w ++
               [ RegSet TIMG0_T0UPDATE_REG 0;
                 RegGet TIMG0_T0LO_REG (uint32 (pending w));
                 RegGet TIMG0_T0HI_REG (uint32 (pending w / 2 ^ 32)) ])
      by (rewrite ticks_eq; reflexivity).
    split; [rewrite Hm; exact H1 |]. split.
    + intros r Hlo Hhi. rewrite Hr by assumption. apply H2; assumption.
    + rewrite Ht, H3. eexists. rewrite <- app_assoc.
      split; [reflexivity |].
      split; [rewrite length_app, Hl; cbn [length]; lia |].
      apply Forall_app. split; [repeat constructor | exact Hf].
Qed.

(** [sleepTicks], returned or still polling, has touched nothing but the
    timer: memory and every register other than the latched pair are as
    before, and its accesses are latch writes and reads of the pair, three
    per poll and at least two polls' worth when it returned; it stores
    nothing and never issues [wfi]. *)
Theorem sleepTicks_frame (fuel : nat) (d : timeUnit) (w : world) :
  let w' := world_of (sleepTicks fuel d w) in
  mem (hw w') = mem (hw w)
  /\ (forall r, r <> TIMG0_T0LO_REG -> r <> TIMG0_T0HI_REG ->
        regs (hw w') r = regs (hw w) r)
  /\ exists k evs,
       (1 <= k <= S fuel)%nat
       /\ (returned (sleepTicks fuel d w) = true -> (2 <= k)%nat)
       /\ trace w' = trace w ++ evs
       /\ length evs = (3 * k)%nat
       /\ Forall (fun e => is_timer_poll e = true) evs
       /\ ~ In Wfi evs
       /\ forall a v, ~ In (Store32 a v) evs.
Proof.
  intros w'. subst w'. rewrite sleepTicks_unfold.
  destruct (sleep_loop_world (add64 (sample 0 w) d) fuel (poll_world 1 w))
    as (k & Hk & Hw).
  rewrite Hw, <- poll_world_add.
  destruct (poll_world_frame (1 + k) w) as (Hm & Hr & evs & Ht & Hl & Hf).
  split; [exact Hm |]. split; [exact Hr |].
  exists (1 + k)%nat, evs.
  split; [lia |]. split.
  { intros Hret. destruct k as [| k]; [| lia].
    destruct fuel as [| fuel]; [discriminate Hret |].
    cbn [sleep_loop] in Hw, Hret.
    destruct (ticks (poll_world 1 w)) as [t w1] eqn:Et.
    destruct (t <? add64 (sample 0 w) d) eqn:Hlt.
    - destruct (sleep_loop_world (add64 (sample 0 w) d) fuel w1)
        as (j & _ & Hj).
      rewrite Hj in Hw.
      assert (Hp : polls (hw (poll_world j w1))
                   = polls (hw (poll_world 0 (poll_world 1 w))))
        by (rewrite Hw; reflexivity).
      destruct (poll_world_osc j w1) as [_ Hpj]. rewrite Hpj in Hp.
      assert (Hw1 : w1 = snd (ticks (poll_world 1 w)))
        by (rewrite Et; reflexivity).
      rewrite Hw1, ticks_hw in Hp. cbn [latch polls poll_world] in Hp. lia.
    - cbn [world_of] in Hw.
      assert (Hp : polls (hw w1) = polls (hw (poll_world 0 (poll_world 1 w))))
        by (rewrite Hw; reflexivity).
      assert (Hw1 : w1 = snd (ticks (poll_world 1 w)))
        by (rewrite Et; reflexivity).
      rewrite Hw1, ticks_hw in Hp. cbn [latch polls poll_world] in Hp. lia. }
  split; [exact Ht |]. split; [exact Hl |]. split; [exact Hf |].
  rewrite Forall_forall in Hf. split.
  - intros Hin. specialize (Hf _ Hin). discriminate.
  - intros a v Hin. specialize (Hf _ Hin). discriminate.
Qed.

Lemma sleepTicks_frame_witness :
  let w := boot (sim_machine 5 7) in
  returned (sleepTicks 3 20 w) = true
  /\ mem (hw (world_of (sleepTicks 3 20 w))) = mem (hw w)
  /\ length (trace (world_of (sleepTicks 3 20 w))) = 12%nat.
Proof.
  intros w.
  destruct (sleepTicks_frame 3 20 w) as (Hm & _ & _).
  split; [vm_compute; reflexivity |].
  split; [exact Hm | vm_compute; reflexivity].
Defined.

(** With a counter that does not advance, [sleepTicks d] for [d > 0]
    (deadline within [int64]) never returns: whatever the fuel it is still
    polling, having called [ticks] once per unit of fuel after the first
    call; for [d <= 0] it returns at its first loop test. *)
Theorem sleepTicks_stuck_counter (w : world) (d : timeUnit) (fuel : nat) :
  (forall k, osc (hw w) (polls (hw w) + k)%nat = osc (hw w) (polls (hw w))) ->
  min_int64 <= sample 0 w + d <= max_int64 ->
  (0 < d -> sleepTicks fuel d w = Spin (poll_world (S fuel) w))
  /\ (d <= 0 -> (1 <= fuel)%nat -> sleepTicks fuel d w = Ret (poll_world 2 w)).
Proof.
  intros Hstuck Hrange.
  assert (Hs : forall k, sample k w = sample 0 w).
  { intros k. rewrite !sample_value, Hstuck, (Hstuck O). reflexivity. }
  assert (Hdl : add64 (sample 0 w) d = sample 0 w + d)
    by (apply int64_id; exact Hrange).
  split.
  - intros Hd. rewrite sleepTicks_unfold, Hdl.
    rewrite sleep_loop_polling.
    + rewrite <- poll_world_add. reflexivity.
    + intros k _. rewrite sample_add, (Hs (1 + k)%nat). lia.
  - intros Hd Hfuel. apply (sleepTicks_exit d 1 fuel w).
    + lia.
    + intros k Hk. lia.
    + rewrite Hdl, (Hs 1%nat). lia.
Qed.

Lemma sleepTicks_stuck_counter_witness :
  let w := boot (sim_machine 100 0) in
  sleepTicks 50 1 w = Spin (poll_world 51 w)
  /\ sleepTicks 50 0 w = Ret (poll_world 2 w).
Proof.
  intros w.
  assert (H0 : sample 0 w = 100) by (vm_compute; reflexivity).
  destruct (sleepTicks_stuck_counter w 1 50) as [Hspin _].
  { intros k. subst w. cbn [boot hw sim_machine osc polls]. lia. }
  { rewrite H0. unfold min_int64, max_int64. lia. }
  destruct (sleepTicks_stuck_counter w 0 50) as [_ Hret].
  { intros k. subst w. cbn [boot hw sim_machine osc polls]. lia. }
  { rewrite H0. unfold min_int64, max_int64. lia. }
  split; [apply Hspin; lia | apply Hret; lia].
Defined.

(** Under a counter that shows [c0] at the call and [step > 0] more at
    each later poll (no overflow), [sleepTicks d] makes exactly
    [sleep_polls step d] loop tests: with less fuel it is still polling,
    with that much it returns; the value it returns on is at least the
    deadline and overshoots it by less than one step (by exactly one step
    for [d = 0]). *)
Theorem sleepTicks_poll_count (w : world) (c0 step d : Z) (fuel : nat) :
  (forall k, osc (hw w) (polls (hw w) + k)%nat = c0 + step * Z.of_nat k) ->
  0 <= c0 -> 0 < step -> 0 <= d ->
  c0 + d + step <= max_int64 ->
  let n := sleep_polls step d in
  (1 <= n)%nat
  /\ ((n <= fuel)%nat -> sleepTicks fuel d w = Ret (poll_world (S n) w))
  /\ ((fuel < n)%nat -> sleepTicks fuel d w = Spin (poll_world (S fuel) w))
  /\ sample n w = c0 + step * Z.of_nat n
  /\ c0 + d <= sample n w <= c0 + d + step
  /\ (0 < d -> sample n w < c0 + d + step).
Proof.
  intros Hsim Hc0 Hpos Hd Hmax n.
  assert (Hsample : forall k, c0 + step * Z.of_nat k <= max_int64 ->
                              sample k w = c0 + step * Z.of_nat k).
  { intros k Hk. rewrite sample_value, Hsim.
    apply int64_uint64_small. nia. }
  assert (H0 : sample 0 w = c0).
  { rewrite Hsample; cbn [Z.of_nat]; lia. }
  assert (Hdl : add64 (sample 0 w) d = c0 + d).
  { rewrite H0. unfold add64. apply int64_id. unfold min_int64. lia. }
  pose proof (Z.div_mod (d + step - 1) step ltac:(lia)) as Hdm.
  pose proof (Z.mod_pos_bound (d + step - 1) step Hpos) as Hr.
  subst n. unfold sleep_polls.
  set (q := (d + step - 1) / step) in *.
  set (r := (d + step - 1) mod step) in *.
  set (N := Z.max 1 q).
  assert (HN1 : 1 <= N) by (subst N; lia).
  assert (Hge : d <= step * N) by (subst N; nia).
  assert (Hle : step * N <= d + step) by (subst N; nia).
  assert (Hlts : 0 < d -> step * N < d + step) by (intros Hd0; subst N; nia).
  assert (Hlt : forall k, 1 <= k < N -> step * k < d)
    by (intros k Hk; subst N; nia).
  assert (HNn : Z.of_nat (Z.to_nat N) = N) by lia.
  assert (Hbelow : forall k, (1 <= k < Z.to_nat N)%nat ->
                     sample k w < add64 (sample 0 w) d).
  { intros k Hk. rewrite Hdl.
    specialize (Hlt (Z.of_nat k) ltac:(lia)).
    rewrite Hsample; nia. }
  assert (HsN : sample (Z.to_nat N) w = c0 + step * N)
    by (rewrite Hsample; rewrite HNn; lia).
  split; [lia |]. split; [| split; [| split; [| split]]].
  - intros Hfuel. apply sleepTicks_exit; [lia | exact Hbelow |].
    rewrite Hdl, HsN. lia.
  - intros Hfuel. rewrite sleepTicks_unfold, sleep_loop_polling.
    + rewrite <- poll_world_add. reflexivity.
    + intros k Hk. rewrite sample_add. apply Hbelow. lia.
  - rewrite HsN, HNn. reflexivity.
  - rewrite HsN. lia.
  - intros Hd0. rewrite HsN. specialize (Hlts Hd0). lia.
Qed.

Lemma sleepTicks_poll_count_witness :
  let w := boot (sim_machine 5 7) in
  sleep_polls 7 20 = 3%nat
  /\ sleepTicks 3 20 w = Ret (poll_world 4 w)
  /\ sleepTicks 2 20 w = Spin (poll_world 3 w)
  /\ sample 3 w = 26.
Proof.
  intros w.
  destruct (sleepTicks_poll_count w 5 7 20 3) as (_ & Hret & _ & Hs & _);
    try lia.
  { intros k. subst w. cbn [boot hw sim_machine osc polls]. lia. }
  { unfold max_int64. lia. }
  destruct (sleepTicks_poll_count w 5 7 20 2) as (_ & _ & Hspin & _);
    try lia.
  { intros k. subst w. cbn [boot hw sim_machine osc polls]. lia. }
  { unfold max_int64. lia. }
  split; [reflexivity |].
  split; [apply Hret; vm_compute; lia |].
  split; [apply Hspin; vm_compute; lia | exact Hs].
Defined.

(** Two sleeps in a row add up.  Under a counter that never decreases and
    stays where neither the samples nor the deadlines leave the
    non-negative [int64] range, if [sleepTicks d1] and then [sleepTicks d2]
    return, the last value read is at least the value at the first call
    plus [d1 + d2]. *)
Theorem sleepTicks_compose
    (w w1 w2 : world) (d1 d2 : timeUnit) (f1 f2 : nat) :
  (forall n, osc (hw w) n <= osc (hw w) (S n)) ->
  (forall n, 0 <= osc (hw w) n) ->
  (forall n, osc (hw w) n + d1 <= max_int64) ->
  (forall n, osc (hw w) n + d2 <= max_int64) ->
  0 <= d1 -> 0 <= d2 ->
  sleepTicks f1 d1 w = Ret w1 ->
  sleepTicks f2 d2 w1 = Ret w2 ->
  exists n1 n2,
    (1 <= n1 <= f1)%nat /\ (1 <= n2 <= f2)%nat
    /\ w1 = poll_world (S n1) w
    /\ w2 = poll_world (S n1 + S n2) w
    /\ sample 0 w + d1 <= sample n1 w
    /\ sample 0 w + d1 + d2 <= sample (S n1 + n2) w.
Proof.
  intros Hmono Hnn Hb1 Hb2 Hd1 Hd2 Hs1 Hs2.
  assert (Hsample : forall k, sample k w = osc (hw w) (polls (hw w) + k)%nat).
  { intros k. rewrite sample_value. apply int64_uint64_small.
    specialize (Hnn (polls (hw w) + k)%nat).
    specialize (Hb1 (polls (hw w) + k)%nat). lia. }
  assert (Hdl : forall k d, 0 <= d -> sample k w + d <= max_int64 ->
                  add64 (sample k w) d = sample k w + d).
  { intros k d Hd Hle. apply int64_id. rewrite Hsample in *.
    specialize (Hnn (polls (hw w) + k)%nat). unfold min_int64. lia. }
  destruct (sleepTicks_ret _ _ _ _ Hs1) as (n1 & Hn1 & Hw1 & Hsu1 & _).
  destruct (sleepTicks_ret _ _ _ _ Hs2) as (n2 & Hn2 & Hw2 & Hsu2 & _).
  rewrite Hw1 in Hw2, Hsu2. rewrite !sample_add in Hsu2.
  rewrite <- poll_world_add in Hw2.
  rewrite Hdl in Hsu1
    by (try rewrite Hsample; try apply Hb1; lia).
  rewrite Hdl in Hsu2
    by (try rewrite Hsample; try apply Hb2; lia).
  exists n1, n2.
  split; [exact Hn1 |]. split; [exact Hn2 |].
  split; [exact Hw1 |]. split; [exact Hw2 |]. split; [exact Hsu1 |].
  assert (Hle : sample n1 w <= sample (S n1 + 0) w).
  { rewrite !Hsample.
    apply (osc_monotone_le _ Hmono). lia. }
  lia.
Qed.

Lemma sleepTicks_compose_witness :
  let w := boot (capped_machine 5 7 1000) in
  exists n1 n2,
    sleepTicks 5 20 w = Ret (poll_world (S n1) w)
    /\ sleepTicks 5 10 (poll_world (S n1) w) = Ret (poll_world (S n1 + S n2) w)
    /\ sample 0 w + 20 + 10 <= sample (S n1 + n2) w.
Proof.
  intros w.
  assert (Hs : forall k, (k <= 7)%nat -> sample k w = 5 + 7 * Z.of_nat k).
  { intros k Hk. rewrite sample_value. subst w.
    cbn [boot hw capped_machine osc polls].
    rewrite int64_uint64_small by (unfold max_int64; lia). lia. }
  assert (H1 : sleepTicks 5 20 w = Ret (poll_world 4 w)).
  { apply (sleepTicks_exit 20 3 5 w); [lia | |].
    - intros k Hk. rewrite !Hs by lia. cbn [Z.of_nat]. unfold add64.
      rewrite int64_id by (unfold min_int64, max_int64; lia). lia.
    - rewrite !Hs by lia. unfold add64.
      rewrite int64_id by (unfold min_int64, max_int64; cbn; lia). cbn. lia. }
  assert (H2 : sleepTicks 5 10 (poll_world 4 w) = Ret (poll_world (4 + 3) w)).
  { rewrite poll_world_add. apply (sleepTicks_exit 10 2 5 (poll_world 4 w)).
    - lia.
    - intros k Hk. rewrite !sample_add, !Hs by lia. unfold add64.
      rewrite int64_id by (unfold min_int64, max_int64; lia). lia.
    - rewrite !sample_add, !Hs by lia. unfold add64.
      rewrite int64_id by (unfold min_int64, max_int64; cbn; lia). cbn. lia. }
  assert (Hmono : forall n, osc (hw w) n <= osc (hw w) (S n))
    by (intros n; subst w; cbn [boot hw capped_machine osc]; lia).
  assert (Hnn : forall n, 0 <= osc (hw w) n)
    by (intros n; subst w; cbn [boot hw capped_machine osc]; lia).
  assert (Hb1 : forall n, osc (hw w) n + 20 <= max_int64)
    by (intros n; subst w; cbn [boot hw capped_machine osc];
        unfold max_int64; lia).
  assert (Hb2 : forall n, osc (hw w) n + 10 <= max_int64)
    by (intros n; subst w; cbn [boot hw capped_machine osc];
        unfold max_int64; lia).
  destruct (sleepTicks_compose w (poll_world 4 w) (poll_world (4 + 3) w)
              20 10 5 5 Hmono Hnn Hb1 Hb2 ltac:(lia) ltac:(lia) H1 H2)
    as (n1 & n2 & _ & _ & Hw1 & Hw2 & _ & Hsum).
  exists n1, n2. rewrite <- Hw1, <- Hw2. repeat split; assumption.
Defined.

(* ================================================================== *)
(** ** The zeroing loop on other bounds *)

Lemma ptr_at_mod4 (s : Z) (k : nat) : ptr_at s k mod 4 = s mod 4.
Proof.
  induction k as [| k IH]; cbn [ptr_at]; [reflexivity |].
  unfold uint32.
  pose proof (Z.div_mod (ptr_at s k + 4) (2 ^ 32) ltac:(lia)) as Hdm.
  replace ((ptr_at s k + 4) mod 2 ^ 32)
    with (ptr_at s k + (1 - 2 ^ 30 * ((ptr_at s k + 4) / 2 ^ 32)) * 4) by lia.
  rewrite Z.mod_add by lia. exact IH.
Qed.

Lemma ptr_at_add (s : Z) (a b : nat) :
  ptr_at s (a + b) = ptr_at (ptr_at s a) b.
Proof.
  induction b as [| b IH].
  - rewrite Nat.add_0_r. reflexivity.
  - rewrite Nat.add_succ_r. cbn [ptr_at]. rewrite IH. reflexivity.
Qed.

Lemma zero_words_add (a b : nat) :
  forall p w,
  zero_words (a + b) p w = zero_words b (ptr_at p a) (zero_words a p w).
Proof.
  induction a as [| a IH]; intros p w; cbn [Nat.add zero_words].
  - reflexivity.
  - rewrite IH, <- ptr_at_shift. reflexivity.
Qed.

(** As [zero_words_mem], for a run of words that ends at the very top of
    the address space. *)
Lemma zero_words_mem_top (n : nat) :
  forall ptr w a,
  0 <= ptr -> ptr + 4 * Z.of_nat n <= 2 ^ 32 ->
  mem (hw (zero_words n ptr w)) a =
  if (ptr <=? a) && (a <? ptr + 4 * Z.of_nat n) then 0 else mem (hw w) a.
Proof.
  intros ptr w a Hp Hn.
  destruct n as [| n].
  - cbn [zero_words].
    destruct (Z.leb_spec ptr a), (Z.ltb_spec a (ptr + 4 * Z.of_nat 0));
      cbn [andb]; try reflexivity; lia.
  - replace (S n) with (n + 1)%nat by lia.
    rewrite zero_words_add. cbn [zero_words store32 hw mem].
    rewrite ptr_at_linear by lia.
    rewrite store32_mem_zero by lia.
    rewrite zero_words_mem by lia.
    destruct (Z.leb_spec ptr a), (Z.ltb_spec a (ptr + 4 * Z.of_nat n)),
      (Z.leb_spec (ptr + 4 * Z.of_nat n) a),
      (Z.ltb_spec a (ptr + 4 * Z.of_nat n + 4)),
      (Z.ltb_spec a (ptr + 4 * Z.of_nat (n + 1)));
      cbn [andb]; try reflexivity; lia.
Qed.

(** When the distance between the bounds is not a multiple of 4 the
    pointer never meets [_ebss]: the zeroing loop never ends, it has done
    one store per unit of fuel, and the boot entry never reaches the timer
    configuration nor the call of [run]. *)
Theorem zero_init_misaligned
    (K : esp_consts) (sbss ebss : Z) (run : machine -> option machine)
    (fuel : nat) (m : machine) :
  (ebss - sbss) mod 4 <> 0 ->
  (forall k, ptr_at sbss k <> ebss)
  /\ zero_init sbss ebss fuel (boot m) = Spin (zero_words fuel sbss (boot m))
  /\ trace (zero_words fuel sbss (boot m)) = zero_events sbss fuel
  /\ trace (world_of (main K sbss ebss run fuel (boot m))) =
       watchdog_events K ++ clock_events K ++ zero_events sbss fuel
  /\ ~ In CallRun (trace (world_of (main K sbss ebss run fuel (boot m))))
  /\ forall v, ~ In (RegSet TIMG0_T0CONFIG_REG v)
                    (trace (world_of (main K sbss ebss run fuel (boot m)))).
Proof.
  intros Hmis.
  assert (Hne : forall k, ptr_at sbss k <> ebss).
  { intros k Heq. apply Hmis.
    rewrite <- Heq, Zminus_mod, ptr_at_mod4, Z.sub_diag. reflexivity. }
  assert (Htr : trace (world_of (main K sbss ebss run fuel (boot m))) =
                watchdog_events K ++ clock_events K ++ zero_events sbss fuel).
  { rewrite main_zeroing by (intros k _; apply Hne). cbn [world_of].
    rewrite zero_words_trace, clock_config_trace, watchdog_disable_trace.
    cbn [boot trace app]. rewrite <- app_assoc. reflexivity. }
  assert (HF : Forall (fun e => e <> CallRun
                        /\ forall v, e <> RegSet TIMG0_T0CONFIG_REG v)
                 (trace (world_of (main K sbss ebss run fuel (boot m))))).
  { rewrite Htr. repeat (apply Forall_app; split).
    - repeat constructor; discriminate.
    - repeat constructor; discriminate.
    - apply Forall_zero_events. intros a v. split; discriminate. }
  rewrite Forall_forall in HF.
  split; [exact Hne |]. split.
  { unfold zero_init. apply zero_loop_spin. intros k _. apply Hne. }
  split; [rewrite zero_words_trace; reflexivity |].
  split; [exact Htr |]. split.
  - intros Hin. exact (proj1 (HF _ Hin) eq_refl).
  - intros v Hin. exact (proj2 (HF _ Hin) v eq_refl).
Qed.

Lemma zero_init_misaligned_witness :
  (0x106 - 0x100) mod 4 <> 0
  /\ trace (world_of (main sample_consts 0x100 0x106 run_returns 3
                        (boot (sim_machine 0 1)))) =
       watchdog_events sample_consts ++ clock_events sample_consts
       ++ [Store32 0x100 0; Store32 0x104 0; Store32 0x108 0].
Proof.
  assert (H : (0x106 - 0x100) mod 4 <> 0) by (vm_compute; discriminate).
  split; [exact H |].
  destruct (zero_init_misaligned sample_consts 0x100 0x106 run_returns 3
              (sim_machine 0 1) H) as (_ & _ & _ & Htr & _).
  rewrite Htr. reflexivity.
Defined.

(** When [_sbss] lies above [_ebss] (both word-aligned) the loop does not
    stop at once: it runs to the top of the 32-bit address space, wraps
    around to address 0 and stops at [_ebss], having zeroed every byte
    outside [[_ebss, _sbss)] and left the bytes inside untouched. *)
Theorem zero_init_reversed_bounds (sbss ebss : Z) (fuel : nat) (w : world) :
  0 <= ebss -> ebss < sbss -> sbss < 2 ^ 32 ->
  sbss mod 4 = 0 -> ebss mod 4 = 0 ->
  (wrap_words sbss ebss < fuel)%nat ->
  exists w',
    zero_init sbss ebss fuel w = Ret w'
    /\ trace w' = trace w ++ zero_events sbss (wrap_words sbss ebss)
    /\ 4 * Z.of_nat (wrap_words sbss ebss) = 2 ^ 32 - (sbss - ebss)
    /\ (forall a, 0 <= a < ebss \/ sbss <= a < 2 ^ 32 -> mem (hw w') a = 0)
    /\ (forall a, ebss <= a < sbss -> mem (hw w') a = mem (hw w) a).
Proof.
  intros He Hlt Hs Hsa Hea Hfuel.
  unfold wrap_words in *.
  pose proof (Z.div_mod (2 ^ 32 - sbss) 4 ltac:(lia)) as Hd1.
  pose proof (Z.div_mod ebss 4 ltac:(lia)) as Hd2.
  assert (Hm1 : (2 ^ 32 - sbss) mod 4 = 0).
  { rewrite Zminus_mod, Hsa. reflexivity. }
  assert (Hq1 : 0 < (2 ^ 32 - sbss) / 4) by lia.
  assert (Hq2 : 0 <= ebss / 4) by lia.
  set (n1 := Z.to_nat ((2 ^ 32 - sbss) / 4)) in *.
  set (n2 := Z.to_nat (ebss / 4)) in *.
  assert (Hn1 : sbss + 4 * Z.of_nat n1 = 2 ^ 32) by (subst n1; lia).
  assert (Hn2 : 4 * Z.of_nat n2 = ebss) by (subst n2; lia).
  assert (Htop : ptr_at sbss n1 = 0).
  { destruct n1 as [| n1'] eqn:En1; [lia |].
    cbn [ptr_at]. rewrite ptr_at_linear by lia.
    replace (sbss + 4 * Z.of_nat n1' + 4) with (2 ^ 32) by lia.
    reflexivity. }
  assert (Hlow : forall j, (j <= n2)%nat ->
                   ptr_at sbss (n1 + j) = 4 * Z.of_nat j).
  { intros j Hj. rewrite ptr_at_add, Htop, ptr_at_linear; lia. }
  exists (zero_words (n1 + n2) sbss w).
  split.
  { unfold zero_init. apply zero_loop_run.
    - intros k Hk. destruct (Nat.lt_ge_cases k n1) as [H | H].
      + rewrite ptr_at_linear by lia. lia.
      + replace k with (n1 + (k - n1))%nat by lia.
        rewrite Hlow by lia. lia.
    - rewrite Hlow by lia. exact Hn2.
    - exact Hfuel. }
  split; [apply zero_words_trace |].
  split; [lia |].
  assert (Hmem : forall a, mem (hw (zero_words (n1 + n2) sbss w)) a =
            if (0 <=? a) && (a <? ebss) then 0
            else if (sbss <=? a) && (a <? 2 ^ 32) then 0 else mem (hw w) a).
  { intros a. rewrite zero_words_add, Htop.
    rewrite zero_words_mem by lia.
    rewrite zero_words_mem_top by lia.
    rewrite Hn1. replace (0 + 4 * Z.of_nat n2) with ebss by lia.
    reflexivity. }
  split.
  - intros a Ha. rewrite Hmem.
    destruct (Z.leb_spec 0 a), (Z.ltb_spec a ebss), (Z.leb_spec sbss a),
      (Z.ltb_spec a (2 ^ 32)); cbn [andb]; try reflexivity; lia.
  - intros a Ha. rewrite Hmem.
    destruct (Z.leb_spec 0 a), (Z.ltb_spec a ebss), (Z.leb_spec sbss a),
      (Z.ltb_spec a (2 ^ 32)); cbn [andb]; try reflexivity; lia.
Qed.

Lemma zero_init_reversed_bounds_witness :
  exists w',
    zero_init 0xFFFFFFF8 0x4 4 (boot (sim_machine 0 1)) = Ret w'
    /\ trace w' = [Store32 0xFFFFFFF8 0; Store32 0xFFFFFFFC 0; Store32 0 0]
    /\ mem (hw w') 0xFFFFFFFF = 0 /\ mem (hw w') 3 = 0
    /\ mem (hw w') 4 = 0xA5.
Proof.
  destruct (zero_init_reversed_bounds 0xFFFFFFF8 0x4 4 (boot (sim_machine 0 1)))
    as (w' & Hrun & Htr & _ & Hz & Hk); try lia; try reflexivity.
  { vm_compute. lia. }
  exists w'. split; [exact Hrun |]. split; [exact Htr |].
  split; [apply Hz; lia |]. split; [apply Hz; lia |].
  rewrite Hk by lia. reflexivity.
Defined.

(* ================================================================== *)
(** ** The machine handed to [run] *)



Lemma boot_order_shape
    (K : esp_consts) (sbss ebss : Z) (run : machine -> option machine)
    (fuel : nat) (m : machine) :
  0 <= sbss -> sbss <= ebss -> ebss < 2 ^ 32 ->
  (ebss - sbss) mod 4 = 0 ->
  (bss_words sbss ebss < fuel)%nat ->
  exists j,
    trace (world_of (main K sbss ebss run fuel (boot m))) =
    watchdog_events K ++ clock_events K
    ++ zero_events sbss (bss_words sbss ebss)
    ++ timebase_events K ++ CallRun :: repeat Wfi j.
Proof.
  intros Hs Hle He Hmul Hfuel.
  rewrite (main_well_formed K sbss ebss run fuel m Hs Hle He Hmul Hfuel).
  destruct (run _) as [m' |]; cbn [world_of trace];
    rewrite handoff_trace; cbn [boot trace app]; rewrite <- !app_assoc.
  - exists fuel. reflexivity.
  - exists O. reflexivity.
Qed.

(** [run] is entered at most once: whatever the bounds, the fuel and the
    behaviour of [run], the trace of the boot entry holds at most one
    call, and exactly one when the bounds are well-formed and the zeroing
    loop is given the fuel to finish. *)
Theorem run_called_once
    (K : esp_consts) (sbss ebss : Z) (run : machine -> option machine)
    (fuel : nat) (m : machine) :
  let tr := trace (world_of (main K sbss ebss run fuel (boot m))) in
  (filter is_call_run tr = [] \/ filter is_call_run tr = [CallRun])
  /\ (0 <= sbss -> sbss <= ebss -> ebss < 2 ^ 32 ->
      (ebss - sbss) mod 4 = 0 ->
      (bss_words sbss ebss < fuel)%nat ->
      filter is_call_run tr = [CallRun]).
Proof.
  intros tr.
  assert (Hshape : forall n tail,
            tr = watchdog_events K ++ clock_events K
                 ++ zero_events sbss n ++ tail ->
            filter is_call_run tr = filter is_call_run tail).
  { intros n tail Htr. rewrite Htr, !filter_app.
    rewrite (filter_none is_call_run (zero_events sbss n))
      by (apply Forall_zero_events; reflexivity).
    reflexivity. }
  assert (Htail : forall j, filter is_call_run
                    (timebase_events K ++ CallRun :: repeat Wfi j)
                  = [CallRun]).
  { intros j. rewrite filter_app. cbn [timebase_events filter is_call_run app].
    rewrite (filter_none is_call_run (repeat Wfi j))
      by (apply Forall_repeat; reflexivity).
    reflexivity. }
  split.
  - destruct (main_trace K sbss ebss run fuel (boot m))
      as (n & tail & Htr & Hcase).
    cbn [boot trace app] in Htr. fold tr in Htr.
    rewrite (Hshape n tail Htr).
    destruct Hcase as [-> | (_ & _ & j & ->)]; [left; reflexivity |].
    right. apply Htail.
  - intros Hs Hle He Hmul Hfuel.
    destruct (boot_order_shape K sbss ebss run fuel m Hs Hle He Hmul Hfuel)
      as (j & Htr).
    fold tr in Htr.
    rewrite (Hshape _ _ Htr). apply Htail.
Qed.

Lemma run_called_once_witness :
  filter is_call_run
    (trace (world_of (main sample_consts 0x100 0x108 run_returns 3
                        (boot (sim_machine 0 1))))) = [CallRun].
Proof.
  apply (run_called_once sample_consts 0x100 0x108 run_returns 3
           (sim_machine 0 1)); try lia; try reflexivity.
  vm_compute. lia.
Defined.

(** Sleeping for [nanosecondsToTicks ns] ticks: under a counter that
    never decreases and stays, deadlines included, in the non-negative
    [int64] range, when the call returns the counter has advanced by at
    least [ns / 25] ticks, that is by more than [ns - 25] nanoseconds: the
    wait can fall short of [ns] by up to 24 nanoseconds, never by more. *)
Theorem sleep_nanoseconds (w w' : world) (ns : Z) (fuel : nat) :
  (forall n, osc (hw w) n <= osc (hw w) (S n)) ->
  (forall n, 0 <= osc (hw w) n) ->
  (forall n, osc (hw w) n + ns / 25 <= max_int64) ->
  0 <= ns <= max_int64 ->
  sleepTicks fuel (nanosecondsToTicks ns) w = Ret w' ->
  exists n,
    (1 <= n <= fuel)%nat
    /\ w' = poll_world (S n) w
    /\ ns / 25 <= sample n w - sample 0 w
    /\ ns - 25 < 25 * (sample n w - sample 0 w).
Proof.
  intros Hmono Hnn Hb Hns Hret.
  assert (Hd : nanosecondsToTicks ns = ns / 25).
  { rewrite nanosecondsToTicks_quot by (unfold min_int64; lia).
    apply Z.quot_div_nonneg; lia. }
  rewrite Hd in Hret.
  assert (Hq : 0 <= ns / 25) by (apply Z.div_pos; lia).
  assert (H0 : sample 0 w = osc (hw w) (polls (hw w) + 0)%nat).
  { rewrite sample_value. apply int64_uint64_small.
    specialize (Hnn (polls (hw w) + 0)%nat).
    specialize (Hb (polls (hw w) + 0)%nat). lia. }
  destruct (sleepTicks_ret _ _ _ _ Hret) as (n & Hn & Hw' & Hsu & _).
  assert (Hdl : add64 (sample 0 w) (ns / 25) = sample 0 w + ns / 25).
  { apply int64_id. rewrite H0.
    specialize (Hnn (polls (hw w) + 0)%nat).
    specialize (Hb (polls (hw w) + 0)%nat). unfold min_int64. lia. }
  rewrite Hdl in Hsu.
  exists n. split; [exact Hn |]. split; [exact Hw' |].
  pose proof (Z.div_mod ns 25 ltac:(lia)) as Hdm.
  pose proof (Z.mod_pos_bound ns 25 ltac:(lia)) as Hr.
  split; lia.
Qed.

Lemma sleep_nanoseconds_witness :
  let w := boot (capped_machine 5 7 1000) in
  nanosecondsToTicks 510 = 20
  /\ exists n, sleepTicks 5 (nanosecondsToTicks 510) w = Ret (poll_world (S n) w)
       /\ 510 - 25 < 25 * (sample n w - sample 0 w).
Proof.
  intros w.
  assert (Hd : nanosecondsToTicks 510 = 20) by (vm_compute; reflexivity).
  split; [exact Hd |].
  assert (Hs : forall k, (k <= 7)%nat -> sample k w = 5 + 7 * Z.of_nat k).
  { intros k Hk. rewrite sample_value. subst w.
    cbn [boot hw capped_machine osc polls].
    rewrite int64_uint64_small by (unfold max_int64; lia). lia. }
  assert (H1 : sleepTicks 5 (nanosecondsToTicks 510) w = Ret (poll_world 4 w)).
  { rewrite Hd. apply (sleepTicks_exit 20 3 5 w); [lia | |].
    - intros k Hk. rewrite !Hs by lia. cbn [Z.of_nat]. unfold add64.
      rewrite int64_id by (unfold min_int64, max_int64; lia). lia.
    - rewrite !Hs by lia. unfold add64.
      rewrite int64_id by (unfold min_int64, max_int64; cbn; lia). cbn. lia. }
  destruct (sleep_nanoseconds w (poll_world 4 w) 510 5) as (n & _ & Hw & _ & Hlt).
  - intros n. subst w. cbn [boot hw capped_machine osc]. lia.
  - intros n. subst w. cbn [boot hw capped_machine osc]. lia.
  - intros n. subst w. cbn [boot hw capped_machine osc].
    change (510 / 25) with 20. unfold max_int64. lia.
  - unfold max_int64. lia.
  - exact H1.
  - exists n. rewrite <- Hw. split; [exact H1 | exact Hlt].
Defined.
